(** * Dynamically resizable admission control: the two semaphores of
    [src/async_utils]

    The development embeds
    - [cancellable_semaphore.py] (class [CancellableMonitoredSemaphore]) in
      module [CMS], and
    - [semaphore_monitor.py] (class [MonitoredSemaphore]) in module [MS],
    and proves the properties of the specification about them.

    Both classes run on one asyncio event loop.  A coroutine runs without
    interruption until it reaches an [await] that really suspends, so the
    code between two suspension points is one atomic step of the model.
    Every step is a function on an explicit state. *)

From stdpp Require Import base numbers list sorting strings.
From Stdlib Require Import ZArith QArith Lia.
From Stdlib Require Import Floats.SpecFloat.

Local Open Scope Z_scope.
Set Warnings "-register-all".

(** ** Python exceptions and the outcome of a block of code *)

Inductive exn : Set :=
| ValueError
| CancelledError
| IndexError
| InvalidStateError
| AttributeError
| TransportError
| RuntimeError
| OverflowError
| ZeroDivisionError.

(** A block of code either completes with a value, raises, would have to
    suspend on an [asyncio.Lock] that is held, or exhausts the fuel given to
    one of its [while] loops. *)
Inductive outcome (St A : Type) : Type :=
| Ok (a : A) (s : St)
| Raise (e : exn) (s : St)
| Block
| Diverge.

Arguments Ok {St A} a s.
Arguments Raise {St A} e s.
Arguments Block {St A}.
Arguments Diverge {St A}.

Definition M (St A : Type) : Type := St -> outcome St A.

Definition ret {St A} (a : A) : M St A := fun s => Ok a s.

Definition bind {St A B} (c : M St A) (k : A -> M St B) : M St B :=
  fun s =>
    match c s with
    | Ok a s' => k a s'
    | Raise e s' => Raise e s'
    | Block => Block
    | Diverge => Diverge
    end.

Definition raise {St A} (e : exn) : M St A := fun s => Raise e s.

Definition get {St} : M St St := fun s => Ok s s.

Definition modify {St} (f : St -> St) : M St unit := fun s => Ok tt (f s).

Definition exn_eqb (a b : exn) : bool :=
  match a, b with
  | ValueError, ValueError
  | CancelledError, CancelledError
  | IndexError, IndexError
  | InvalidStateError, InvalidStateError
  | AttributeError, AttributeError
  | TransportError, TransportError
  | RuntimeError, RuntimeError
  | OverflowError, OverflowError
  | ZeroDivisionError, ZeroDivisionError => true
  | _, _ => false
  end.

(** [try: c  except e: h] *)
Definition try_except {St A} (c : M St A) (e : exn) (h : M St A) : M St A :=
  fun s =>
    match c s with
    | Raise e' s' => if exn_eqb e' e then h s' else Raise e' s'
    | o => o
    end.

(** The state a step leaves behind, when the step runs to its end (by
    returning or by raising into its caller). *)
Definition after {St A} (o : outcome St A) : option St :=
  match o with
  | Ok _ s => Some s
  | Raise _ s => Some s
  | Block => None
  | Diverge => None
  end.

Declare Scope py_scope.
Delimit Scope py_scope with py.
Notation "'let*' x ':=' c 'in' k" := (bind c (fun x => k))
  (at level 10, x name, c at level 100, k at level 200) : py_scope.
Notation "c '>>' k" := (bind c (fun _ => k))
  (at level 65, right associativity) : py_scope.
Local Open Scope py_scope.

(** Counting the entries of a table that satisfy a test. *)
Fixpoint count {A} (p : A -> bool) (l : list A) : nat :=
  match l with
  | [] => 0%nat
  | x :: l' => ((if p x then 1 else 0) + count p l')%nat
  end.

(** ** Python numbers: [int / int] and [float * int]

    A Python [float] is an IEEE 754 binary64 number, here a [spec_float]
    with 53 bits of precision and maximal exponent 1024. *)

Inductive number : Type :=
| NInt (z : Z)
| NFloat (f : spec_float).

(** An integer as an exact, unrounded operand of a float operation. *)
Definition exact_int (z : Z) : spec_float :=
  match z with
  | Z0 => S754_zero false
  | Zpos p => S754_finite false p 0
  | Zneg p => S754_finite true p 0
  end.

(** [float(z)]: the integer rounded to the nearest double. *)
Definition float_of_int (z : Z) : spec_float :=
  binary_normalize 53 1024 z 0 false.

(** [a / b] on two [int]s: the quotient of the two integers rounded once to
    the nearest double (ties to even), with the sign of [a] times the sign
    of [b] also when [a] is 0; [ZeroDivisionError] when [b] is 0 and
    [OverflowError] when the quotient is too large for a double. *)
Definition true_divide (a b : Z) : exn + spec_float :=
  if b =? 0 then inl ZeroDivisionError
  else
    match SFdiv 53 1024 (exact_int a) (exact_int b) with
    | S754_infinity _ => inl OverflowError
    | q => inr q
    end.

(** [x * k] for a float [x] and an [int] [k]: [k] is converted to a float
    and the product is rounded to the nearest double; an overflow gives an
    infinity, not an exception. *)
Definition float_times_int (x : spec_float) (k : Z) : spec_float :=
  SFmul 53 1024 x (float_of_int k).

(** ** The hand-over of a fetched limit to the event loop

    What [asyncio.run_coroutine_threadsafe(self.update_limit(new_limit),
    self._loop)] followed by [future.result(timeout=5.0)] did in one round
    of the update thread: the coroutine ran to its end on the event loop
    within the wait, or it did not run in this round (the loop was closed,
    so that the call raised, or the loop did not get to the coroutine
    before the wait timed out).  An exception of either call is caught and
    logged by the thread. *)
Inductive handover : Set :=
| Completed
| NotRun.

(** ** The policy fetch: [_fetch_limit_from_url]

    The method has the same body in both classes (the one of
    [semaphore_monitor.py] only adds prints). *)

(** The Python values [response.json()] can return. *)
Inductive pyval : Type :=
| PNone
| PBool (b : bool)
| PInt (z : Z)
| PFloat (q : Q)
| PStr (s : string)
| PList (l : list pyval)
| PDict (d : list (string * pyval)).

(** What [requests.get(self._update_url, timeout=10)] does: it raises, or
    returns a response with a status code and a body; the body is [None]
    here when it is not JSON, in which case [response.json()] raises. *)
Inductive get_result : Type :=
| GetRaises
| GetReturns (status_code : Z) (body : option pyval).

(** [isinstance(v, int)]: [bool] is a subclass of [int]. *)
Definition isinstance_int (v : pyval) : bool :=
  match v with
  | PInt _ | PBool _ => true
  | _ => false
  end.

(** The integer a Python [int] (or [bool]) is in arithmetic and
    comparisons: [True] is 1 and [False] is 0. *)
Definition int_value (v : pyval) : Z :=
  match v with
  | PInt z => z
  | PBool true => 1
  | _ => 0
  end.

Fixpoint dict_get (d : list (string * pyval)) (k : string) : pyval :=
  match d with
  | [] => PNone
  | (k', v) :: d' => if String.eqb k' k then v else dict_get d' k
  end.

(** [data.get("limit")]; only a dict has the method. *)
Definition data_get (data : pyval) (k : string) : exn + pyval :=
  match data with
  | PDict d => inr (dict_get d k)
  | _ => inl AttributeError
  end.

(** All exceptions are caught and logged, and the method then returns
    [None]. *)
Definition _fetch_limit_from_url (r : get_result) : option pyval :=
  match r with
  | GetRaises => None
  | GetReturns status_code body =>
      if status_code =? 200 then
        match body with
        | None => None
        | Some data =>
            match data_get data "limit" with
            | inl _ => None
            | inr limit =>
                if isinstance_int limit && (0 <? int_value limit)
                then Some limit
                else None
            end
        end
      else None
  end.

(** ** The operations a caller of either class performs *)
Inductive op : Type :=
| Acquire               (* a new task asks for a permit *)
| Resume (t : nat)      (* the loop resumes task t, suspended in its acquire *)
| Release (t : nat)     (* holder t gives its permit back *)
| SetLimit (n : Z).     (* update_limit(n) *)

(** ** [CancellableMonitoredSemaphore] *)
Module CMS.

(** An [asyncio.Future]: pending, completed by [set_result(None)], or
    cancelled. *)
Inductive fut_state : Set := Pending | Finished | FutCancelled.

Definition done (f : fut_state) : bool :=
  match f with Pending => false | _ => true end.

(** One call of [acquire()], run by a task of its own.  The [waiter] future
    is a local variable of the call, so the future is identified with the
    task that created it: task [t] suspended at [await waiter] carries the
    state of its future and the [_must_cancel] flag that [Task.cancel()]
    sets when the awaited future is already done. *)
Inductive task : Set :=
| AwaitWaiter (fut : fut_state) (must_cancel : bool)
| Holding      (* acquire() returned: the caller holds a permit *)
| Failed       (* acquire() raised CancelledError *)
| Released.    (* the holder called release() *)

(** Calls made on the futures and on the deque, in the order they happen. *)
Inductive signal : Set :=
| Enqueued (w : nat)   (* self._waiters.append(waiter) *)
| Woke (w : nat)       (* waiter.set_result(None) *)
| Cancel (w : nat).    (* waiter.cancel() that took effect *)

Record state : Type := State {
  _max_value : Z;
  _active_count : Z;
  _available : Z;
  _waiters : list nat;          (* collections.deque, head first *)
  _lock : bool;                 (* asyncio.Lock: is it held *)
  tasks : list task;            (* the acquire() calls made so far *)
  release_tasks : nat;          (* _release_async() tasks created, not yet run *)
  history : list signal         (* ghost: the calls above, oldest first *)
}.

Definition __init__ (value : Z) : state :=
  {| _max_value := value; _active_count := 0; _available := value;
     _waiters := []; _lock := false; tasks := []; release_tasks := 0;
     history := [] |}.

Definition set_max_value (v : Z) (s : state) : state :=
  {| _max_value := v; _active_count := _active_count s;
     _available := _available s; _waiters := _waiters s; _lock := _lock s;
     tasks := tasks s; release_tasks := release_tasks s;
     history := history s |}.

Definition set_active_count (v : Z) (s : state) : state :=
  {| _max_value := _max_value s; _active_count := v;
     _available := _available s; _waiters := _waiters s; _lock := _lock s;
     tasks := tasks s; release_tasks := release_tasks s;
     history := history s |}.

Definition set_available (v : Z) (s : state) : state :=
  {| _max_value := _max_value s; _active_count := _active_count s;
     _available := v; _waiters := _waiters s; _lock := _lock s;
     tasks := tasks s; release_tasks := release_tasks s;
     history := history s |}.

Definition set_waiters (v : list nat) (s : state) : state :=
  {| _max_value := _max_value s; _active_count := _active_count s;
     _available := _available s; _waiters := v; _lock := _lock s;
     tasks := tasks s; release_tasks := release_tasks s;
     history := history s |}.

Definition set_lock (v : bool) (s : state) : state :=
  {| _max_value := _max_value s; _active_count := _active_count s;
     _available := _available s; _waiters := _waiters s; _lock := v;
     tasks := tasks s; release_tasks := release_tasks s;
     history := history s |}.

Definition set_tasks (v : list task) (s : state) : state :=
  {| _max_value := _max_value s; _active_count := _active_count s;
     _available := _available s; _waiters := _waiters s; _lock := _lock s;
     tasks := v; release_tasks := release_tasks s;
     history := history s |}.

Definition set_release_tasks (v : nat) (s : state) : state :=
  {| _max_value := _max_value s; _active_count := _active_count s;
     _available := _available s; _waiters := _waiters s; _lock := _lock s;
     tasks := tasks s; release_tasks := v;
     history := history s |}.

Definition set_history (v : list signal) (s : state) : state :=
  {| _max_value := _max_value s; _active_count := _active_count s;
     _available := _available s; _waiters := _waiters s; _lock := _lock s;
     tasks := tasks s; release_tasks := release_tasks s;
     history := v |}.

Definition log (e : signal) : M state unit :=
  modify (fun s => set_history (history s ++ [e]) s).

(** *** The lock *)

(** [async with self._lock: body].  Acquiring a free [asyncio.Lock] does not
    suspend; the lock is released when the body returns or raises. *)
Definition with_lock {A} (body : M state A) : M state A :=
  fun s =>
    if _lock s then Block
    else match body (set_lock true s) with
         | Ok a s' => Ok a (set_lock false s')
         | Raise e s' => Raise e (set_lock false s')
         | Block => Block
         | Diverge => Diverge
         end.

(** *** The deque of waiters *)

Definition append (w : nat) : M state unit :=
  modify (fun s => set_waiters (_waiters s ++ [w]) s) >> log (Enqueued w).

Definition popleft : M state nat :=
  fun s =>
    match _waiters s with
    | [] => Raise IndexError s
    | w :: ws => Ok w (set_waiters ws s)
    end.

Definition pop : M state nat :=
  fun s =>
    match last (_waiters s) with
    | None => Raise IndexError s
    | Some w => Ok w (set_waiters (removelast (_waiters s)) s)
    end.

Fixpoint remove_first (w : nat) (l : list nat) : list nat :=
  match l with
  | [] => []
  | x :: l' => if Nat.eqb x w then l' else x :: remove_first w l'
  end.

(** [deque.remove(x)] deletes the first occurrence and raises [ValueError]
    when there is none. *)
Definition remove (w : nat) : M state unit :=
  fun s =>
    if existsb (Nat.eqb w) (_waiters s)
    then Ok tt (set_waiters (remove_first w (_waiters s)) s)
    else Raise ValueError s.

(** *** The futures *)

(** [waiter.done()].  A task that has left its [await] was resumed by a
    future that was done, and a future stays done. *)
Definition waiter_done (w : nat) : M state bool :=
  fun s =>
    match tasks s !! w with
    | Some (AwaitWaiter Pending _) => Ok false s
    | _ => Ok true s
    end.

(** [waiter.set_result(None)] raises [InvalidStateError] on a done future. *)
Definition set_result (w : nat) : M state unit :=
  fun s =>
    match tasks s !! w with
    | Some (AwaitWaiter Pending mc) =>
        log (Woke w) (set_tasks (<[w := AwaitWaiter Finished mc]> (tasks s)) s)
    | _ => Raise InvalidStateError s
    end.

(** [waiter.cancel()] returns [False] and changes nothing on a done future. *)
Definition cancel (w : nat) : M state bool :=
  fun s =>
    match tasks s !! w with
    | Some (AwaitWaiter Pending mc) =>
        (log (Cancel w) >> ret true)
          (set_tasks (<[w := AwaitWaiter FutCancelled mc]> (tasks s)) s)
    | _ => Ok false s
    end.

(** [Task.cancel()] on the task running [acquire()], suspended at
    [await waiter]: it cancels the awaited future when that is still
    pending; otherwise the wake-up of the task is already scheduled and
    [_must_cancel] is set, so that the next step of the task throws
    [CancelledError] into the coroutine. *)
Definition task_cancel (t : nat) : M state bool :=
  fun s =>
    match tasks s !! t with
    | Some (AwaitWaiter Pending mc) => cancel t s
    | Some (AwaitWaiter f mc) =>
        Ok true (set_tasks (<[t := AwaitWaiter f true]> (tasks s)) s)
    | _ => Ok false s
    end.

(** *** Status properties *)

Definition active_count (s : state) : Z * state := (_active_count s, s).

Definition available_permits (s : state) : Z * state := (_available s, s).

Definition current_limit (s : state) : Z * state := (_max_value s, s).

(** The property returns the [int] 0 at limit 0 and otherwise the float
    [(active / limit) * 100]; an exception of the division leaves the
    property. *)
Definition saturation_percentage : M state number :=
  fun s =>
    if _max_value s =? 0 then Ok (NInt 0) s
    else
      match true_divide (_active_count s) (_max_value s) with
      | inl e => Raise e s
      | inr q => Ok (NFloat (float_times_int q 100)) s
      end.

(** *** acquire *)

(** [acquire()] up to its first suspension.  The call is made by a new task,
    which gets the next free index of [tasks].  Returns [true] when the call
    returned with a permit, [false] when it is suspended at
    [await waiter]. *)
Definition acquire : M state bool :=
  let* fast :=
    with_lock (
      let* s := get in
      if 0 <? _available s then
        modify (fun s => set_available (_available s - 1) s) >>
        modify (fun s => set_active_count (_active_count s + 1) s) >>
        ret true
      else ret false) in
  if fast then
    modify (fun s => set_tasks (tasks s ++ [Holding]) s) >> ret true
  else
    let* s := get in
    let waiter := length (tasks s) in
    modify (fun s => set_tasks (tasks s ++ [AwaitWaiter Pending false]) s) >>
    append waiter >>
    ret false.

(** The rest of [acquire()], run when the loop steps task [t] again: the
    [await] returns when the future has a result and no cancellation was
    requested, and raises [CancelledError] otherwise. *)
Definition acquire_resume (t : nat) : M state unit :=
  fun s =>
    match tasks s !! t with
    | Some (AwaitWaiter f mc) =>
        if negb (done f) then Block
        else
          match f, mc with
          | Finished, false =>
              (with_lock
                 (modify (fun s => set_active_count (_active_count s + 1) s)) >>
               modify (fun s => set_tasks (<[t := Holding]> (tasks s)) s)) s
          | _, _ =>
              (try_except (remove t) ValueError (ret tt) >>
               modify (fun s => set_tasks (<[t := Failed]> (tasks s)) s) >>
               raise CancelledError) s
          end
    | _ => Block
    end.

(** *** release *)

(** [release()] only creates a task for [_release_async()].
    [asyncio.create_task] needs the running event loop of the calling
    thread and raises [RuntimeError] when there is none; [running_loop]
    tells whether the call is made from code run by the event loop. *)
Definition release (running_loop : bool) : M state unit :=
  if running_loop
  then modify (fun s => set_release_tasks (S (release_tasks s)) s)
  else raise RuntimeError.

(** [while self._waiters: ...]; [true] when the loop left by [return]. *)
Fixpoint release_loop (fuel : nat) : M state bool :=
  fun s =>
    match _waiters s with
    | [] => Ok false s
    | _ :: _ =>
        match fuel with
        | O => Diverge
        | S fuel' =>
            (let* waiter := popleft in
             let* d := waiter_done waiter in
             if negb d then set_result waiter >> ret true
             else release_loop fuel') s
        end
    end.

Definition _release_async : M state unit :=
  with_lock (
    modify (fun s => set_active_count (_active_count s - 1) s) >>
    let* s := get in
    let* returned := release_loop (length (_waiters s)) in
    if returned then ret tt
    else modify (fun s => set_available (_available s + 1) s)).

(** *** update_limit *)

(** [for _ in range(to_wake): ...] *)
Fixpoint wake_loop (to_wake : nat) : M state unit :=
  match to_wake with
  | O => ret tt
  | S n =>
      (let* s := get in
       match _waiters s with
       | [] => ret tt
       | _ :: _ =>
           let* waiter := popleft in
           let* d := waiter_done waiter in
           if negb d then
             set_result waiter >>
             modify (fun s => set_available (_available s - 1) s)
           else ret tt
       end) >>
      wake_loop n
  end.

(** [while len(self._waiters) > allowed_waiting: ...] *)
Fixpoint cancel_loop (allowed_waiting : Z) (fuel : nat) : M state unit :=
  fun s =>
    if allowed_waiting <? Z.of_nat (length (_waiters s)) then
      match fuel with
      | O => Diverge
      | S fuel' =>
          (let* waiter := pop in
           let* d := waiter_done waiter in
           (if negb d then cancel waiter >> ret tt else ret tt) >>
           cancel_loop allowed_waiting fuel') s
      end
    else Ok tt s.

Definition update_limit (new_limit : Z) : M state unit :=
  if new_limit <=? 0 then raise ValueError
  else
    with_lock (
      let* s := get in
      if new_limit =? _max_value s then ret tt
      else
        let old_limit := _max_value s in
        modify (set_max_value new_limit) >>
        let new_available := new_limit - _active_count s in
        (if new_available <? 0 then modify (set_available 0)
         else
           modify (set_available new_available) >>
           if old_limit <? new_limit then
             let to_wake :=
               Z.min (Z.of_nat (length (_waiters s))) new_available in
             wake_loop (Z.to_nat to_wake)
           else ret tt) >>
        if new_limit <? old_limit then
          let allowed_waiting := Z.max 0 (new_limit - _active_count s) in
          cancel_loop allowed_waiting (length (_waiters s))
        else ret tt).

(** *** The event loop *)

Inductive event : Type :=
| EAcquire                 (* a new task calls acquire() *)
| EResume (t : nat)        (* the loop steps task t, suspended in acquire() *)
| ECancel (t : nat)        (* Task.cancel() on task t, suspended in acquire() *)
| ERelease (t : nat)       (* holder t, a task of the loop, calls release() *)
| ERunRelease              (* the loop runs one pending _release_async() *)
| EUpdateLimit (n : Z).    (* update_limit(n) *)

(** [None] when the event cannot happen in [s]. *)
Definition step (e : event) (s : state) : option state :=
  match e with
  | EAcquire => after (acquire s)
  | EResume t => after (acquire_resume t s)
  | ECancel t =>
      match tasks s !! t with
      | Some (AwaitWaiter _ _) => after (task_cancel t s)
      | _ => None
      end
  | ERelease t =>
      match tasks s !! t with
      | Some Holding =>
          after ((modify (fun s => set_tasks (<[t := Released]> (tasks s)) s) >>
                  release true) s)
      | _ => None
      end
  | ERunRelease =>
      match release_tasks s with
      | O => None
      | S n => after (_release_async (set_release_tasks n s))
      end
  | EUpdateLimit n => after (update_limit n s)
  end.

Fixpoint run (es : list event) (s : state) : option state :=
  match es with
  | [] => Some s
  | e :: es' =>
      match step e s with
      | Some s' => run es' s'
      | None => None
      end
  end.

Definition is_holding (k : task) : bool :=
  match k with Holding => true | _ => false end.

(** The permits granted and not yet released. *)
Definition holders (s : state) : nat := count is_holding (tasks s).

Definition is_update (e : event) : bool :=
  match e with EUpdateLimit _ => true | _ => false end.

(** One round of [_update_loop_thread] after its sleep: a fetched limit is
    handed to [update_limit] when the event loop has been captured.  When
    the hand-over completes, [update_limit] has run and an exception it
    raised is logged; when it does not, nothing has run.  A Python [bool]
    enters the arithmetic of [update_limit] as its integer value. *)
Definition _update_loop_tick (r : get_result) (loop_captured : bool)
           (h : handover) : M state unit :=
  match _fetch_limit_from_url r with
  | Some new_limit =>
      if loop_captured then
        match h with
        | Completed =>
            fun s =>
              match update_limit (int_value new_limit) s with
              | Raise _ s' => Ok tt s'
              | o => o
              end
        | NotRun => ret tt
        end
      else ret tt
  | None => ret tt
  end.

(** How the class carries out the operations of a caller: [release()]
    followed by the run of the [_release_async()] task it created. *)
Definition exec (o : op) (s : state) : option state :=
  match o with
  | Acquire => step EAcquire s
  | Resume t => step (EResume t) s
  | Release t => run [ERelease t; ERunRelease] s
  | SetLimit n => step (EUpdateLimit n) s
  end.

Fixpoint exec_all (os : list op) (s : state) : option state :=
  match os with
  | [] => Some s
  | o :: os' =>
      match exec o s with
      | Some s' => exec_all os' s'
      | None => None
      end
  end.

(** *** Pure descriptions of the loops, used to state what they do *)

Definition pending (tk : list task) (w : nat) : bool :=
  match tk !! w with
  | Some (AwaitWaiter Pending _) => true
  | _ => false
  end.

(** The future of [k] completed with state [f], if it was pending. *)
Definition mark (f : fut_state) (k : task) : task :=
  match k with
  | AwaitWaiter Pending mc => AwaitWaiter f mc
  | _ => k
  end.

(** Visit the waiters [ws] in order and complete each pending one with
    [f]: the waiters completed, and the table afterwards. *)
Fixpoint mark_all (f : fut_state) (ws : list nat) (tk : list task)
  : list nat * list task :=
  match ws with
  | [] => ([], tk)
  | w :: ws' =>
      if pending tk w then
        let r := mark_all f ws' (alter (mark f) w tk) in
        (w :: fst r, snd r)
      else mark_all f ws' tk
  end.

(** The head-most pending waiter of a queue and what follows it. *)
Fixpoint first_pending (tk : list task) (ws : list nat)
  : option (nat * list nat) :=
  match ws with
  | [] => None
  | w :: ws' => if pending tk w then Some (w, ws') else first_pending tk ws'
  end.

Definition is_granted (k : task) : bool :=
  match k with AwaitWaiter Finished _ => true | _ => false end.

(** Waiters whose future has a result and that have not run since. *)
Definition granted (s : state) : nat := count is_granted (tasks s).

Definition wakes (h : list signal) : list nat :=
  omap (fun e => match e with Woke w => Some w | _ => None end) h.

Definition enqueues (h : list signal) : list nat :=
  omap (fun e => match e with Enqueued w => Some w | _ => None end) h.

Definition cancels (h : list signal) : list nat :=
  omap (fun e => match e with Cancel w => Some w | _ => None end) h.

(** *** Invariants of the executions *)

(** At a fixed limit [L]: the permits are accounted for by the holders,
    the releases still to run, the free permits and the waiters that were
    granted one and have not run yet. *)
Definition inv_fixed (L : Z) (s : state) : Prop :=
  _lock s = false /\
  _max_value s = L /\
  0 <= _available s /\
  Z.of_nat (holders s) + Z.of_nat (release_tasks s) = _active_count s /\
  _active_count s + _available s + Z.of_nat (granted s) <= L.

Definition no_update (es : list event) : bool :=
  forallb (fun e => negb (is_update e)) es.

(** The queue holds the waiters in the order of their [append], every
    pending waiter is in it, and the waiters woken so far were woken in
    that order, each before every waiter still pending. *)
Definition queue_inv (ws : list nat) (tk : list task) (h : list signal)
  : Prop :=
  StronglySorted lt ws /\
  (forall w, w ∈ ws -> (w < length tk)%nat) /\
  (forall t, pending tk t = true -> t ∈ ws) /\
  StronglySorted lt (wakes h) /\
  (forall g t, g ∈ wakes h -> pending tk t = true -> (g < t)%nat) /\
  StronglySorted lt (enqueues h) /\
  (forall e, e ∈ enqueues h -> (e < length tk)%nat) /\
  (forall g, g ∈ wakes h -> g ∈ enqueues h) /\
  (forall t f mc, tk !! t = Some (AwaitWaiter f mc) -> t ∈ enqueues h) /\
  (forall w, w ∈ ws -> w ∈ enqueues h).

Definition inv_queue (s : state) : Prop :=
  _lock s = false /\ queue_inv (_waiters s) (tasks s) (history s).

(** The permits of the pool that are accounted for: held, free, or handed
    to a waiter that has not run yet. *)
Definition permits (s : state) : Z :=
  _active_count s + _available s + Z.of_nat (granted s).

(** *** Further invariants and conditions on executions *)

(** The counters, in every execution. *)
Definition inv_counts (s : state) : Prop :=
  _lock s = false /\
  0 <= _available s /\
  Z.of_nat (holders s) + Z.of_nat (release_tasks s) = _active_count s.

(** [Task.cancel()] that reaches a waiter whose future already has a
    result. *)
Definition late_cancel (e : event) (s : state) : bool :=
  match e with
  | ECancel t =>
      match tasks s !! t with
      | Some (AwaitWaiter Finished _) => true
      | _ => false
      end
  | _ => false
  end.

(** No event of the execution of [es] from [s] is a late cancel. *)
Fixpoint no_late_cancel (es : list event) (s : state) : bool :=
  match es with
  | [] => true
  | e :: es' =>
      negb (late_cancel e s) &&
      match step e s with
      | Some s' => no_late_cancel es' s'
      | None => true
      end
  end.

(** At a fixed limit and without late cancels every permit is accounted
    for, and only a cancelled future carries a cancellation request. *)
Definition inv_exact (L : Z) (s : state) : Prop :=
  _lock s = false /\
  _max_value s = L /\
  Z.of_nat (holders s) + Z.of_nat (release_tasks s) = _active_count s /\
  permits s = L /\
  (forall t mc, tasks s !! t = Some (AwaitWaiter Pending mc) -> mc = false) /\
  (forall t mc, tasks s !! t = Some (AwaitWaiter Finished mc) -> mc = false).

(** Every entry of the queue is a task suspended in [acquire()] whose
    future has no result. *)
Definition inv_entries (s : state) : Prop :=
  forall w, w ∈ _waiters s ->
    exists f mc, tasks s !! w = Some (AwaitWaiter f mc) /\ f <> Finished.

(** At a fixed limit a free permit and a pending waiter never coexist. *)
Definition inv_no_idle_permit (s : state) : Prop :=
  0 < _available s -> forall t, pending (tasks s) t = false.

End CMS.

(** ** [MonitoredSemaphore] *)
Module MS.

(** An [asyncio.Semaphore] (CPython 3.11 and later): a counter and the
    queue of the tasks suspended in its [acquire()]. *)
Record semaphore : Type := Semaphore {
  _value : Z;
  sem_waiters : list nat
}.

(** One use of the semaphore ([__aenter__] ... [__aexit__]) by a task. *)
Inductive task : Set :=
| Acquiring (sem : nat) (woken : bool)
    (* suspended in acquire() of semaphore object [sem]; [woken]: the
       future it awaits has a result *)
| Holding
| Exited.

Record state : Type := State {
  heap : list semaphore;        (* the asyncio.Semaphore objects created *)
  _semaphore : nat;             (* self._semaphore: index in [heap] *)
  _old_semaphores : list nat;
  _max_value : Z;
  _active_count : Z;
  _lock : bool;
  tasks : list task
}.

Definition __init__ (value : Z) : state :=
  {| heap := [Semaphore value []]; _semaphore := 0%nat;
     _old_semaphores := []; _max_value := value; _active_count := 0;
     _lock := false; tasks := [] |}.

Definition set_heap (v : list semaphore) (s : state) : state :=
  {| heap := v; _semaphore := _semaphore s;
     _old_semaphores := _old_semaphores s; _max_value := _max_value s;
     _active_count := _active_count s; _lock := _lock s; tasks := tasks s |}.

Definition set_semaphore (v : nat) (s : state) : state :=
  {| heap := heap s; _semaphore := v;
     _old_semaphores := _old_semaphores s; _max_value := _max_value s;
     _active_count := _active_count s; _lock := _lock s; tasks := tasks s |}.

Definition set_old_semaphores (v : list nat) (s : state) : state :=
  {| heap := heap s; _semaphore := _semaphore s;
     _old_semaphores := v; _max_value := _max_value s;
     _active_count := _active_count s; _lock := _lock s; tasks := tasks s |}.

Definition set_max_value (v : Z) (s : state) : state :=
  {| heap := heap s; _semaphore := _semaphore s;
     _old_semaphores := _old_semaphores s; _max_value := v;
     _active_count := _active_count s; _lock := _lock s; tasks := tasks s |}.

Definition set_active_count (v : Z) (s : state) : state :=
  {| heap := heap s; _semaphore := _semaphore s;
     _old_semaphores := _old_semaphores s; _max_value := _max_value s;
     _active_count := v; _lock := _lock s; tasks := tasks s |}.

Definition set_lock (v : bool) (s : state) : state :=
  {| heap := heap s; _semaphore := _semaphore s;
     _old_semaphores := _old_semaphores s; _max_value := _max_value s;
     _active_count := _active_count s; _lock := v; tasks := tasks s |}.

Definition set_tasks (v : list task) (s : state) : state :=
  {| heap := heap s; _semaphore := _semaphore s;
     _old_semaphores := _old_semaphores s; _max_value := _max_value s;
     _active_count := _active_count s; _lock := _lock s; tasks := v |}.

Definition with_lock {A} (body : M state A) : M state A :=
  fun s =>
    if _lock s then Block
    else match body (set_lock true s) with
         | Ok a s' => Ok a (set_lock false s')
         | Raise e s' => Raise e (set_lock false s')
         | Block => Block
         | Diverge => Diverge
         end.

(** *** asyncio.Semaphore *)

Definition not_woken (tk : list task) (w : nat) : bool :=
  match tk !! w with
  | Some (Acquiring _ false) => true
  | _ => false
  end.

(** [_wake_up_next()]: the first waiter whose future is not done gets the
    result, and the counter is decremented for it. *)
Definition _wake_up_next (k : nat) : M state unit :=
  fun s =>
    match heap s !! k with
    | None => Raise AttributeError s
    | Some sem =>
        match List.find (not_woken (tasks s)) (sem_waiters sem) with
        | None => Ok tt s
        | Some w =>
            Ok tt
              (set_tasks (<[w := Acquiring k true]> (tasks s))
                 (set_heap
                    (<[k := Semaphore (_value sem - 1) (sem_waiters sem)]>
                       (heap s)) s))
        end
    end.

(** [Semaphore.locked()] *)
Definition locked (sem : semaphore) : bool :=
  (_value sem =? 0) || negb (bool_decide (sem_waiters sem = [])).

(** [Semaphore.acquire()] up to its first suspension, called by a new
    task: [true] when it returned. *)
Definition sem_acquire (k : nat) : M state bool :=
  fun s =>
    match heap s !! k with
    | None => Raise AttributeError s
    | Some sem =>
        if negb (locked sem) then
          Ok true
            (set_heap
               (<[k := Semaphore (_value sem - 1) (sem_waiters sem)]> (heap s))
               s)
        else
          let t := length (tasks s) in
          Ok false
            (set_tasks (tasks s ++ [Acquiring k false])
               (set_heap
                  (<[k := Semaphore (_value sem) (sem_waiters sem ++ [t])]>
                     (heap s)) s))
    end.

(** The rest of [Semaphore.acquire()] for a woken task [t]. *)
Definition sem_acquire_resume (k t : nat) : M state unit :=
  fun s =>
    match heap s !! k with
    | None => Raise AttributeError s
    | Some sem =>
        let sem' :=
          Semaphore (_value sem)
            (List.filter (fun w => negb (Nat.eqb w t)) (sem_waiters sem)) in
        let s1 := set_heap (<[k := sem']> (heap s)) s in
        if 0 <? _value sem then _wake_up_next k s1 else Ok tt s1
    end.

(** [Semaphore.release()] *)
Definition sem_release (k : nat) : M state unit :=
  fun s =>
    match heap s !! k with
    | None => Raise AttributeError s
    | Some sem =>
        _wake_up_next k
          (set_heap
             (<[k := Semaphore (_value sem + 1) (sem_waiters sem)]> (heap s))
             s)
    end.

(** *** The class *)

Definition active_count (s : state) : Z * state := (_active_count s, s).

Definition available_permits (s : state) : Z * state :=
  (_max_value s - _active_count s, s).

Definition current_limit (s : state) : Z * state := (_max_value s, s).

Definition saturation_percentage : M state number :=
  fun s =>
    if _max_value s =? 0 then Ok (NInt 0) s
    else
      match true_divide (_active_count s) (_max_value s) with
      | inl e => Raise e s
      | inr q => Ok (NFloat (float_times_int q 100)) s
      end.

Definition incr_active : M state unit :=
  with_lock (modify (fun s => set_active_count (_active_count s + 1) s)).

(** [__aenter__] (and the entry of [acquire_monitored]) up to its first
    suspension: the semaphore used is the current [self._semaphore]. *)
Definition __aenter__ : M state bool :=
  let* s := get in
  let* got := sem_acquire (_semaphore s) in
  if got then
    incr_active >>
    modify (fun s => set_tasks (tasks s ++ [Holding]) s) >> ret true
  else ret false.

Definition aenter_resume (t : nat) : M state unit :=
  fun s =>
    match tasks s !! t with
    | Some (Acquiring k true) =>
        (sem_acquire_resume k t >>
         incr_active >>
         modify (fun s => set_tasks (<[t := Holding]> (tasks s)) s)) s
    | _ => Block
    end.

(** [__aexit__]: the semaphore released is the current [self._semaphore]. *)
Definition __aexit__ : M state unit :=
  with_lock (modify (fun s => set_active_count (_active_count s - 1) s)) >>
  let* s := get in
  sem_release (_semaphore s).

(** [update_limit]: the whole body is inside [try: ... except Exception],
    whose handler prints the error and lets the method return. *)
Definition update_limit (new_limit : Z) : M state unit :=
  fun s =>
    match
      (if new_limit <=? 0 then raise ValueError
       else
         with_lock (
           let* s := get in
           if new_limit =? _max_value s then ret tt
           else
             let old_semaphore := _semaphore s in
             modify (fun s =>
                       set_old_semaphores
                         (_old_semaphores s ++ [old_semaphore]) s) >>
             let* s1 := get in
             let new_semaphore := length (heap s1) in
             modify (fun s => set_heap (heap s ++ [Semaphore new_limit []]) s) >>
             modify (set_semaphore new_semaphore) >>
             modify (set_max_value new_limit))) s
    with
    | Raise _ s' => Ok tt s'
    | o => o
    end.

Inductive event : Type :=
| EEnter                 (* a new task enters the semaphore *)
| EResume (t : nat)      (* the loop steps task t, woken in acquire() *)
| EExit (t : nat)        (* holder t leaves *)
| EUpdateLimit (n : Z).

Definition step (e : event) (s : state) : option state :=
  match e with
  | EEnter => after (__aenter__ s)
  | EResume t => after (aenter_resume t s)
  | EExit t =>
      match tasks s !! t with
      | Some Holding =>
          after ((modify (fun s => set_tasks (<[t := Exited]> (tasks s)) s) >>
                  __aexit__) s)
      | _ => None
      end
  | EUpdateLimit n => after (update_limit n s)
  end.

Definition exec (o : op) (s : state) : option state :=
  match o with
  | Acquire => step EEnter s
  | Resume t => step (EResume t) s
  | Release t => step (EExit t) s
  | SetLimit n => step (EUpdateLimit n) s
  end.

Fixpoint exec_all (os : list op) (s : state) : option state :=
  match os with
  | [] => Some s
  | o :: os' =>
      match exec o s with
      | Some s' => exec_all os' s'
      | None => None
      end
  end.

Definition is_holding (k : task) : bool :=
  match k with Holding => true | _ => false end.

Definition holders (s : state) : nat := count is_holding (tasks s).

(** One round of [_update_loop_thread] after its sleep, as in [CMS]. *)
Definition _update_loop_tick (r : get_result) (loop_captured : bool)
           (h : handover) : M state unit :=
  match _fetch_limit_from_url r with
  | Some new_limit =>
      if loop_captured then
        match h with
        | Completed =>
            fun s =>
              match update_limit (int_value new_limit) s with
              | Raise _ s' => Ok tt s'
              | o => o
              end
        | NotRun => ret tt
        end
      else ret tt
  | None => ret tt
  end.

(** *** Invariants of the executions *)

Definition no_resize (os : list op) : bool :=
  forallb (fun o => match o with SetLimit _ => false | _ => true end) os.

Definition is_woken (k : task) : bool :=
  match k with Acquiring _ true => true | _ => false end.

(** At a fixed limit [L] there is one semaphore object; its counter, the
    holders and the tasks woken in its [acquire()] add up to [L]. *)
Definition inv_fixed (L : Z) (s : state) : Prop :=
  _lock s = false /\
  _max_value s = L /\
  _semaphore s = 0%nat /\
  _active_count s = Z.of_nat (holders s) /\
  (forall t k b, tasks s !! t = Some (Acquiring k b) -> k = 0%nat) /\
  exists v ws,
    heap s = [Semaphore v ws] /\
    0 <= v /\
    v + Z.of_nat (holders s) + Z.of_nat (count is_woken (tasks s)) = L.

End MS.

(** * Proofs *)

(** ** Counting *)

Lemma count_app {A} (p : A -> bool) (l1 l2 : list A) :
  count p (l1 ++ l2) = (count p l1 + count p l2)%nat.
Proof.
  induction l1 as [|x l1 IH]; simpl; [reflexivity|].
  rewrite IH. lia.
Qed.

Lemma count_insert {A} (p : A -> bool) (l : list A) (i : nat) (x y : A) :
  l !! i = Some x ->
  (count p (<[i := y]> l) + (if p x then 1 else 0) =
   count p l + (if p y then 1 else 0))%nat.
Proof.
  revert i. induction l as [|a l IH]; intros [|i] Hi; simpl in *;
    try discriminate.
  - injection Hi as ->. lia.
  - specialize (IH i Hi). lia.
Qed.

Lemma count_alter_same {A} (p : A -> bool) (f : A -> A) (l : list A) (i : nat) :
  (forall x, l !! i = Some x -> p (f x) = p x) ->
  count p (alter f i l) = count p l.
Proof.
  revert i. induction l as [|a l IH]; intros [|i] H; simpl in *;
    try reflexivity.
  - rewrite (H a eq_refl). reflexivity.
  - f_equal. apply IH. exact H.
Qed.

(** ** What each operation of [CancellableMonitoredSemaphore] computes *)
Module CMS_ops.
Import CMS.

Lemma state_eta (s : state) :
  s = {| _max_value := _max_value s; _active_count := _active_count s;
         _available := _available s; _waiters := _waiters s;
         _lock := _lock s; tasks := tasks s;
         release_tasks := release_tasks s; history := history s |}.
Proof. destruct s; reflexivity. Qed.

Ltac st_simpl :=
  unfold log, modify, ret, get, raise, set_max_value, set_active_count,
    set_available, set_waiters, set_lock, set_tasks, set_release_tasks,
    set_history in *;
  simpl in *.

Lemma pending_lookup (tk : list task) (w : nat) :
  pending tk w = true <-> exists mc, tk !! w = Some (AwaitWaiter Pending mc).
Proof.
  unfold pending. split.
  - destruct (tk !! w) as [[[] mc| | |]|]; try discriminate. eauto.
  - intros [mc ->]. reflexivity.
Qed.

Lemma insert_mark (f : fut_state) (tk : list task) (w : nat) (mc : bool) :
  tk !! w = Some (AwaitWaiter Pending mc) ->
  <[w := AwaitWaiter f mc]> tk = alter (mark f) w tk.
Proof.
  revert w. induction tk as [|a tk IH]; intros [|w] H; simpl in *;
    try discriminate.
  - injection H as ->. reflexivity.
  - f_equal. apply IH, H.
Qed.

Lemma acquire_fast (s : state) :
  _lock s = false -> 0 < _available s ->
  acquire s =
  Ok true (set_tasks (tasks s ++ [Holding])
             (set_active_count (_active_count s + 1)
                (set_available (_available s - 1) s))).
Proof.
  intros Hl Ha. apply Z.ltb_lt in Ha.
  unfold acquire, bind, with_lock, get, modify, ret. simpl.
  rewrite Hl. simpl. rewrite Ha. simpl.
  destruct s; simpl in *; subst; reflexivity.
Qed.

Lemma acquire_slow (s : state) :
  _lock s = false -> _available s <= 0 ->
  acquire s =
  Ok false (set_history (history s ++ [Enqueued (length (tasks s))])
              (set_waiters (_waiters s ++ [length (tasks s)])
                 (set_tasks (tasks s ++ [AwaitWaiter Pending false]) s))).
Proof.
  intros Hl Ha. apply Z.ltb_ge in Ha.
  unfold acquire, append, log, bind, with_lock, get, modify, ret. simpl.
  rewrite Hl. simpl. rewrite Ha. simpl.
  destruct s; simpl in *; subst; reflexivity.
Qed.

Lemma release_loop_spec (fuel : nat) (s : state) :
  (length (_waiters s) <= fuel)%nat ->
  release_loop fuel s =
  match first_pending (tasks s) (_waiters s) with
  | Some (w, rest) =>
      Ok true (set_history (history s ++ [Woke w])
                 (set_tasks (alter (mark Finished) w (tasks s))
                    (set_waiters rest s)))
  | None => Ok false (set_waiters [] s)
  end.
Proof.
  revert s. induction fuel as [|fuel IH]; intros s Hf.
  - destruct s as [m a v ws l tk r h]. simpl in *.
    destruct ws; simpl in *; [reflexivity|lia].
  - destruct s as [m a v ws l tk r h]. simpl in *.
    destruct ws as [|w ws]; simpl; [reflexivity|].
    unfold bind, popleft, waiter_done, set_result, pending. st_simpl.
    destruct (tk !! w) as [[[] mc| | |]|] eqn:E; simpl;
      try (rewrite IH by (simpl in *; lia); reflexivity).
    rewrite E. simpl.
    rewrite (insert_mark Finished tk w mc E). reflexivity.
Qed.

Lemma release_async_spec (s : state) :
  _lock s = false ->
  _release_async s =
  match first_pending (tasks s) (_waiters s) with
  | Some (w, rest) =>
      Ok tt (set_history (history s ++ [Woke w])
               (set_tasks (alter (mark Finished) w (tasks s))
                  (set_waiters rest
                     (set_active_count (_active_count s - 1) s))))
  | None =>
      Ok tt (set_available (_available s + 1)
               (set_waiters []
                  (set_active_count (_active_count s - 1) s)))
  end.
Proof.
  intros Hl.
  unfold _release_async, with_lock, bind, modify, get. rewrite Hl. simpl.
  rewrite release_loop_spec by (simpl; lia). simpl.
  destruct (first_pending (tasks s) (_waiters s)) as [[w rest]|]; simpl;
    destruct s; simpl in *; subst; reflexivity.
Qed.

Lemma wake_loop_spec (n : nat) (s : state) :
  wake_loop n s =
  let r := mark_all Finished (take n (_waiters s)) (tasks s) in
  Ok tt (set_history (history s ++ map Woke (fst r))
           (set_tasks (snd r)
              (set_available (_available s - Z.of_nat (length (fst r)))
                 (set_waiters (drop n (_waiters s)) s)))).
Proof.
  revert s. induction n as [|n IH]; intros [m a v ws l tk r h].
  - simpl. st_simpl. rewrite app_nil_r, Z.sub_0_r. reflexivity.
  - destruct ws as [|w ws].
    + cbn [wake_loop]. unfold bind, get, ret. cbn [_waiters].
      rewrite IH. cbn [_waiters tasks history _available].
      rewrite take_nil, drop_nil. reflexivity.
    + cbn [wake_loop]. unfold bind, get, popleft, waiter_done, set_result.
      st_simpl. unfold pending.
      destruct (tk !! w) as [[[] mc| | |]|] eqn:E; simpl;
        try (rewrite IH; reflexivity).
      rewrite E. simpl. rewrite IH. simpl.
      rewrite (insert_mark Finished tk w mc E).
      rewrite <- app_assoc. simpl.
      rewrite Nat2Z.inj_succ.
      replace (v - 1 - Z.of_nat (length (mark_all Finished (take n ws)
                 (alter (mark Finished) w tk)).1))
        with (v - Z.succ (Z.of_nat (length (mark_all Finished (take n ws)
                 (alter (mark Finished) w tk)).1))) by lia.
      reflexivity.
Qed.

Lemma cancel_loop_spec (allowed : Z) (fuel : nat) (s : state) :
  0 <= allowed ->
  (length (_waiters s) <= fuel)%nat ->
  cancel_loop allowed fuel s =
  let k := Z.to_nat allowed in
  let r := mark_all FutCancelled (rev (drop k (_waiters s))) (tasks s) in
  Ok tt (set_history (history s ++ map Cancel (fst r))
           (set_tasks (snd r) (set_waiters (take k (_waiters s)) s))).
Proof.
  intros Hk. revert s.
  induction fuel as [|fuel IH]; intros [m a v ws l tk r h] Hf; simpl in Hf.
  - destruct ws; simpl in Hf; [|lia]. simpl.
    replace (allowed <? Z.of_nat 0) with false
      by (symmetry; apply Z.ltb_ge; lia).
    rewrite drop_nil, take_nil. simpl. st_simpl. rewrite app_nil_r.
    reflexivity.
  - cbn [cancel_loop _waiters].
    destruct (allowed <? Z.of_nat (length ws)) eqn:G.
    + apply Z.ltb_lt in G.
      destruct (decide (ws = [])) as [->|Hne]; [simpl in G; lia|].
      destruct (exists_last Hne) as (ws' & x & ->).
      rewrite length_app in G, Hf. simpl in G, Hf.
      unfold bind, pop, waiter_done, cancel, pending. st_simpl.
      rewrite last_snoc, removelast_last.
      rewrite drop_app_le by lia. rewrite rev_unit.
      rewrite take_app_le by lia. simpl. unfold pending.
      destruct (tk !! x) as [[[] mc| | |]|] eqn:E; simpl;
        try (rewrite IH by (simpl; lia); reflexivity).
      unfold bind. st_simpl. rewrite E. simpl.
      rewrite IH by (simpl; lia). simpl.
      rewrite (insert_mark FutCancelled tk x mc E).
      rewrite <- app_assoc. reflexivity.
    + apply Z.ltb_ge in G.
      rewrite drop_ge by lia. rewrite take_ge by lia. simpl. st_simpl.
      rewrite app_nil_r. reflexivity.
Qed.

Lemma update_limit_nonpositive (n : Z) (s : state) :
  n <= 0 -> update_limit n s = Raise ValueError s.
Proof.
  intros Hn. unfold update_limit.
  replace (n <=? 0) with true by (symmetry; apply Z.leb_le; exact Hn).
  reflexivity.
Qed.

Lemma update_limit_same (n : Z) (s : state) :
  _lock s = false -> 0 < n -> n = _max_value s ->
  update_limit n s = Ok tt s.
Proof.
  intros Hl Hn ->. unfold update_limit.
  replace (_max_value s <=? 0) with false by (symmetry; apply Z.leb_gt; lia).
  unfold with_lock, bind, get. rewrite Hl. simpl.
  rewrite Z.eqb_refl. destruct s; simpl in *; subst; reflexivity.
Qed.

Lemma update_limit_grow (n : Z) (s : state) :
  _lock s = false -> 0 < n -> _max_value s < n ->
  update_limit n s =
  if n - _active_count s <? 0 then
    Ok tt (set_available 0 (set_max_value n s))
  else
    let k :=
      Z.to_nat (Z.min (Z.of_nat (length (_waiters s)))
                  (n - _active_count s)) in
    let r := mark_all Finished (take k (_waiters s)) (tasks s) in
    Ok tt (set_history (history s ++ map Woke (fst r))
             (set_tasks (snd r)
                (set_available
                   (n - _active_count s - Z.of_nat (length (fst r)))
                   (set_waiters (drop k (_waiters s))
                      (set_max_value n s))))).
Proof.
  intros Hl Hn Hg. unfold update_limit.
  replace (n <=? 0) with false by (symmetry; apply Z.leb_gt; lia).
  unfold with_lock, bind, get. rewrite Hl. simpl.
  replace (n =? _max_value s) with false by (symmetry; apply Z.eqb_neq; lia).
  replace (_max_value s <? n) with true by (symmetry; apply Z.ltb_lt; lia).
  replace (n <? _max_value s) with false by (symmetry; apply Z.ltb_ge; lia).
  try unfold modify; simpl.
  destruct (n - _active_count s <? 0) eqn:E.
  - try unfold modify, ret; simpl.
    destruct s; simpl in *; subst; reflexivity.
  - try unfold modify; simpl. rewrite wake_loop_spec. simpl.
    destruct s; simpl in *; subst; reflexivity.
Qed.

Lemma update_limit_shrink (n : Z) (s : state) :
  _lock s = false -> 0 < n -> n < _max_value s ->
  update_limit n s =
  let k := Z.to_nat (Z.max 0 (n - _active_count s)) in
  let r := mark_all FutCancelled (rev (drop k (_waiters s))) (tasks s) in
  Ok tt (set_history (history s ++ map Cancel (fst r))
           (set_tasks (snd r)
              (set_waiters (take k (_waiters s))
                 (set_available (Z.max 0 (n - _active_count s))
                    (set_max_value n s))))).
Proof.
  intros Hl Hn Hg. unfold update_limit.
  replace (n <=? 0) with false by (symmetry; apply Z.leb_gt; lia).
  unfold with_lock, bind, get. rewrite Hl. simpl.
  replace (n =? _max_value s) with false by (symmetry; apply Z.eqb_neq; lia).
  replace (_max_value s <? n) with false by (symmetry; apply Z.ltb_ge; lia).
  replace (n <? _max_value s) with true by (symmetry; apply Z.ltb_lt; lia).
  try unfold modify; simpl.
  destruct (n - _active_count s <? 0) eqn:E.
  - apply Z.ltb_lt in E. try unfold modify; simpl.
    rewrite cancel_loop_spec by (simpl; lia). simpl.
    rewrite Z.max_l by lia.
    destruct s; simpl in *; subst; reflexivity.
  - apply Z.ltb_ge in E. try unfold modify, ret; simpl.
    rewrite cancel_loop_spec by (simpl; lia). simpl.
    rewrite Z.max_r by lia.
    destruct s; simpl in *; subst; reflexivity.
Qed.

Lemma remove_first_absent (t : nat) (ws : list nat) :
  existsb (Nat.eqb t) ws = false -> remove_first t ws = ws.
Proof.
  induction ws as [|x ws IH]; simpl; [reflexivity|].
  intros H. apply orb_false_iff in H as [H1 H2].
  rewrite Nat.eqb_sym, H1. f_equal. apply IH, H2.
Qed.

Lemma resume_granted (t : nat) (s : state) :
  _lock s = false ->
  tasks s !! t = Some (AwaitWaiter Finished false) ->
  acquire_resume t s =
  Ok tt (set_tasks (<[t := Holding]> (tasks s))
           (set_active_count (_active_count s + 1) s)).
Proof.
  intros Hl Ht. unfold acquire_resume. rewrite Ht. simpl.
  unfold bind, with_lock, modify. rewrite Hl. simpl.
  destruct s; simpl in *; subst; reflexivity.
Qed.

Lemma resume_cancelled (t : nat) (s : state) (f : fut_state) (mc : bool) :
  tasks s !! t = Some (AwaitWaiter f mc) ->
  (f = FutCancelled \/ (f = Finished /\ mc = true)) ->
  acquire_resume t s =
  Raise CancelledError
    (set_tasks (<[t := Failed]> (tasks s))
       (set_waiters (remove_first t (_waiters s)) s)).
Proof.
  intros Ht Hc. unfold acquire_resume. rewrite Ht.
  assert (E : forall X : outcome state unit,
             match f, mc with Finished, false => X | _, _ =>
               (try_except (remove t) ValueError (ret tt) >>
                modify (fun s => set_tasks (<[t := Failed]> (tasks s)) s) >>
                raise CancelledError) s end =
             (try_except (remove t) ValueError (ret tt) >>
                modify (fun s => set_tasks (<[t := Failed]> (tasks s)) s) >>
                raise CancelledError) s).
  { intros X. destruct Hc as [->|[-> ->]]; [destruct mc|]; reflexivity. }
  replace (negb (done f)) with false
    by (destruct Hc as [->|[-> _]]; reflexivity).
  rewrite E. clear E.
  unfold bind, try_except, remove, modify, raise, ret.
  destruct (existsb (Nat.eqb t) (_waiters s)) eqn:Ex; simpl.
  - reflexivity.
  - rewrite (remove_first_absent _ _ Ex).
    destruct s; simpl in *; reflexivity.
Qed.

End CMS_ops.

(** ** The pure descriptions of the loops *)
Module CMS_lists.
Import CMS CMS_ops.

Lemma mark_idem (f : fut_state) (k : task) : mark f (mark f k) = mark f k.
Proof. destruct k as [[] mc| | |]; destruct f; reflexivity. Qed.

Lemma mark_not_pending (f : fut_state) (k : task) (mc : bool) :
  f <> Pending -> mark f k <> AwaitWaiter Pending mc.
Proof. destruct k as [[] mc'| | |]; destruct f; simpl; congruence. Qed.

Lemma pending_alter (f : fut_state) (tk : list task) (w g : nat) :
  pending (alter (mark f) w tk) g = true -> pending tk g = true.
Proof.
  unfold pending. destruct (decide (w = g)) as [->|Hne].
  - rewrite list_lookup_alter_eq.
    destruct (tk !! g) as [[[] mc| | |]|]; simpl; try discriminate; auto.
  - rewrite list_lookup_alter_ne by exact Hne. auto.
Qed.

Lemma mark_all_length (f : fut_state) (ws : list nat) (tk : list task) :
  length (snd (mark_all f ws tk)) = length tk.
Proof.
  revert tk. induction ws as [|w ws IH]; intros tk; simpl; [reflexivity|].
  destruct (pending tk w); simpl; rewrite IH; [apply length_alter|reflexivity].
Qed.

Lemma mark_all_sublist (f : fut_state) (ws : list nat) (tk : list task) :
  sublist (fst (mark_all f ws tk)) ws.
Proof.
  revert tk. induction ws as [|w ws IH]; intros tk; simpl; [constructor|].
  destruct (pending tk w); simpl.
  - apply sublist_skip, IH.
  - apply sublist_cons, IH.
Qed.

Lemma mark_all_pending (f : fut_state) (ws : list nat) (tk : list task) (g : nat) :
  g ∈ fst (mark_all f ws tk) -> pending tk g = true.
Proof.
  revert tk. induction ws as [|w ws IH]; intros tk; simpl.
  - intros H. inversion H.
  - destruct (pending tk w) eqn:E; simpl.
    + intros H. apply elem_of_cons in H as [->|H]; [exact E|].
      apply IH in H. eapply pending_alter, H.
    + apply IH.
Qed.

Lemma mark_all_lookup_in (f : fut_state) (ws : list nat) (tk : list task) (t : nat) :
  t ∈ ws -> snd (mark_all f ws tk) !! t = mark f <$> (tk !! t).
Proof.
  assert (Hout : forall ws tk, t ∉ ws -> snd (mark_all f ws tk) !! t = tk !! t).
  { clear. induction ws as [|w ws IH]; intros tk Hn; simpl; [reflexivity|].
    apply not_elem_of_cons in Hn as [Hne Hn].
    destruct (pending tk w); simpl; rewrite IH by exact Hn; [|reflexivity].
    apply list_lookup_alter_ne. congruence. }
  revert tk. induction ws as [|w ws IH]; intros tk Hin; simpl.
  - inversion Hin.
  - destruct (decide (t ∈ ws)) as [Hws|Hws].
    + destruct (pending tk w) eqn:E; simpl; rewrite IH by exact Hws;
        [|reflexivity].
      destruct (decide (w = t)) as [->|Hne].
      * rewrite list_lookup_alter_eq.
        destruct (tk !! t); simpl; [|reflexivity]. f_equal. apply mark_idem.
      * rewrite list_lookup_alter_ne by exact Hne. reflexivity.
    + apply elem_of_cons in Hin as [->|Hin]; [|contradiction].
      destruct (pending tk w) eqn:E; simpl; rewrite Hout by exact Hws.
      * apply list_lookup_alter_eq.
      * unfold pending in E.
        destruct (tk !! w) as [[[] mc| | |]|]; simpl; try reflexivity.
        discriminate.
Qed.

Lemma mark_all_lookup_out (f : fut_state) (ws : list nat) (tk : list task) (t : nat) :
  t ∉ ws -> snd (mark_all f ws tk) !! t = tk !! t.
Proof.
  revert tk. induction ws as [|w ws IH]; intros tk Hn; simpl; [reflexivity|].
  apply not_elem_of_cons in Hn as [Hne Hn].
  destruct (pending tk w); simpl; rewrite IH by exact Hn; [|reflexivity].
  apply list_lookup_alter_ne. congruence.
Qed.

(** A waiter still pending after the visit was pending before and was not
    visited. *)
Lemma mark_all_still_pending (f : fut_state) (ws : list nat) (tk : list task)
      (t : nat) :
  f <> Pending ->
  pending (snd (mark_all f ws tk)) t = true ->
  pending tk t = true /\ t ∉ ws.
Proof.
  intros Hf H. destruct (decide (t ∈ ws)) as [Hin|Hout].
  - exfalso. unfold pending in H. rewrite mark_all_lookup_in in H by exact Hin.
    destruct (tk !! t) as [k|]; simpl in H; [|discriminate].
    destruct (mark f k) as [[] mc| | |] eqn:E; try discriminate.
    eapply mark_not_pending; eauto.
  - split; [|exact Hout]. unfold pending in *.
    rewrite mark_all_lookup_out in H by exact Hout. exact H.
Qed.

Lemma mark_all_filter (f : fut_state) (ws : list nat) (tk : list task) :
  f <> Pending -> NoDup ws ->
  fst (mark_all f ws tk) = List.filter (pending tk) ws.
Proof.
  intros Hf Hnd. revert tk.
  induction Hnd as [|w ws Hw Hnd IH]; intros tk; simpl; [reflexivity|].
  assert (Hsame : forall l, w ∉ l ->
            List.filter (pending (alter (mark f) w tk)) l =
            List.filter (pending tk) l).
  { induction l as [|x l IHl]; intros Hn; simpl; [reflexivity|].
    apply not_elem_of_cons in Hn as [Hne Hn].
    rewrite IHl by exact Hn. unfold pending at 1 3.
    rewrite list_lookup_alter_ne by congruence. reflexivity. }
  destruct (pending tk w) eqn:E; simpl.
  - rewrite IH, Hsame by exact Hw. reflexivity.
  - apply IH.
Qed.

Lemma first_pending_some (tk : list task) (ws : list nat) (w : nat)
      (rest : list nat) :
  first_pending tk ws = Some (w, rest) ->
  exists pre,
    ws = pre ++ w :: rest /\
    Forall (fun x => pending tk x = false) pre /\
    pending tk w = true.
Proof.
  induction ws as [|x ws IH]; simpl; [discriminate|].
  destruct (pending tk x) eqn:E.
  - intros [= -> ->]. exists []. split; [reflexivity|]. split; [constructor|].
    exact E.
  - intros H. destruct (IH H) as (pre & -> & Hpre & Hw).
    exists (x :: pre). split; [reflexivity|]. split; [|exact Hw].
    constructor; assumption.
Qed.

Lemma first_pending_none (tk : list task) (ws : list nat) :
  first_pending tk ws = None -> Forall (fun x => pending tk x = false) ws.
Proof.
  induction ws as [|x ws IH]; simpl; [constructor|].
  destruct (pending tk x) eqn:E; [discriminate|].
  intros H. constructor; auto.
Qed.

End CMS_lists.

(** ** Executions at a fixed limit *)
Module CMS_fixed.
Import CMS CMS_ops CMS_lists.

Lemma holders_mark (f : fut_state) (w : nat) (tk : list task) :
  count is_holding (alter (mark f) w tk) = count is_holding tk.
Proof.
  apply count_alter_same. intros [[] mc| | |] _; reflexivity.
Qed.

Lemma granted_mark_cancelled (w : nat) (tk : list task) :
  count is_granted (alter (mark FutCancelled) w tk) = count is_granted tk.
Proof.
  apply count_alter_same. intros [[] mc| | |] _; reflexivity.
Qed.

Lemma granted_mark_finished (w : nat) (tk : list task) :
  pending tk w = true ->
  count is_granted (alter (mark Finished) w tk) = S (count is_granted tk).
Proof.
  intros H. apply pending_lookup in H as [mc H].
  rewrite <- (insert_mark Finished tk w mc H).
  pose proof (count_insert is_granted tk w _ (AwaitWaiter Finished mc) H) as C.
  simpl in C. lia.
Qed.

Lemma inv_fixed_init (L : Z) : 0 <= L -> inv_fixed L (__init__ L).
Proof.
  intros HL. unfold inv_fixed, holders, granted. simpl. lia.
Qed.

Lemma inv_fixed_step (L : Z) (e : event) (s s' : state) :
  inv_fixed L s -> is_update e = false -> step e s = Some s' ->
  inv_fixed L s'.
Proof.
  intros (Hl & Hm & Hv & Hh & Hsum) Hu Hs.
  unfold inv_fixed, holders, granted in *.
  destruct e as [|t|t|t| |n]; simpl in Hs; try discriminate.
  - (* acquire *)
    destruct (Z_lt_le_dec 0 (_available s)) as [Hpos|Hnp].
    + rewrite acquire_fast in Hs by assumption. injection Hs as <-. simpl.
      rewrite !count_app. simpl. repeat split; try assumption; lia.
    + rewrite acquire_slow in Hs by assumption. injection Hs as <-. simpl.
      rewrite !count_app. simpl. repeat split; try assumption; lia.
  - (* a waiter runs again *)
    destruct (tasks s !! t) as [[f mc| | |]|] eqn:Ht;
      try (unfold acquire_resume in Hs; rewrite Ht in Hs; discriminate).
    destruct f.
    + unfold acquire_resume in Hs. rewrite Ht in Hs. discriminate.
    + destruct mc.
      * rewrite (resume_cancelled t s Finished true Ht) in Hs by auto.
        injection Hs as <-. simpl.
        pose proof (count_insert is_holding _ t _ Failed Ht) as C1.
        pose proof (count_insert is_granted _ t _ Failed Ht) as C2.
        simpl in C1, C2. repeat split; try assumption; lia.
      * rewrite (resume_granted t s Hl Ht) in Hs. injection Hs as <-. simpl.
        pose proof (count_insert is_holding _ t _ Holding Ht) as C1.
        pose proof (count_insert is_granted _ t _ Holding Ht) as C2.
        simpl in C1, C2. repeat split; try assumption; lia.
    + rewrite (resume_cancelled t s FutCancelled mc Ht) in Hs by auto.
      injection Hs as <-. simpl.
      pose proof (count_insert is_holding _ t _ Failed Ht) as C1.
      pose proof (count_insert is_granted _ t _ Failed Ht) as C2.
      simpl in C1, C2. repeat split; try assumption; lia.
  - (* Task.cancel() *)
    destruct (tasks s !! t) as [[f mc| | |]|] eqn:Ht; try discriminate.
    unfold task_cancel, cancel in Hs. rewrite Ht in Hs.
    destruct f; simpl in Hs; injection Hs as <-; simpl.
    + pose proof (count_insert is_holding _ t _ (AwaitWaiter FutCancelled mc) Ht) as C1.
      pose proof (count_insert is_granted _ t _ (AwaitWaiter FutCancelled mc) Ht) as C2.
      simpl in C1, C2. repeat split; try assumption; lia.
    + pose proof (count_insert is_holding _ t _ (AwaitWaiter Finished true) Ht) as C1.
      pose proof (count_insert is_granted _ t _ (AwaitWaiter Finished true) Ht) as C2.
      simpl in C1, C2. repeat split; try assumption; lia.
    + pose proof (count_insert is_holding _ t _ (AwaitWaiter FutCancelled true) Ht) as C1.
      pose proof (count_insert is_granted _ t _ (AwaitWaiter FutCancelled true) Ht) as C2.
      simpl in C1, C2. repeat split; try assumption; lia.
  - (* release() *)
    destruct (tasks s !! t) as [[f mc| | |]|] eqn:Ht; try discriminate.
    simpl in Hs. injection Hs as <-. simpl.
    pose proof (count_insert is_holding _ t _ Released Ht) as C1.
    pose proof (count_insert is_granted _ t _ Released Ht) as C2.
    simpl in C1, C2. repeat split; try assumption; lia.
  - (* _release_async() *)
    destruct (release_tasks s) as [|n] eqn:Hr; [discriminate|].
    rewrite release_async_spec in Hs by (simpl; assumption). simpl in Hs.
    destruct (first_pending (tasks s) (_waiters s)) as [[w rest]|] eqn:Hp;
      injection Hs as <-; simpl.
    + apply first_pending_some in Hp as (pre & _ & _ & Hw).
      rewrite holders_mark, (granted_mark_finished _ _ Hw).
      repeat split; try assumption; lia.
    + repeat split; try assumption; lia.
Qed.

Lemma inv_fixed_run (L : Z) (es : list event) (s s' : state) :
  inv_fixed L s -> no_update es = true -> run es s = Some s' ->
  inv_fixed L s'.
Proof.
  revert s. induction es as [|e es IH]; intros s Hi Hn Hr; simpl in *.
  - injection Hr as <-. exact Hi.
  - apply andb_true_iff in Hn as [He Hn]. apply negb_true_iff in He.
    destruct (step e s) as [s1|] eqn:Hs; [|discriminate].
    apply (IH s1); [eapply inv_fixed_step; eassumption|exact Hn|exact Hr].
Qed.

(** C1.  At a fixed limit [L] (no [update_limit]), after any sequence of
    acquire calls, wake-ups, cancellations and matching releases, the
    number of permits granted and not yet released is at most [L]. *)
Theorem C1_granted_permits_never_exceed_limit
        (L : Z) (es : list event) (s : state) :
  0 <= L ->
  no_update es = true ->
  run es (__init__ L) = Some s ->
  Z.of_nat (holders s) <= L.
Proof.
  intros HL Hn Hr.
  destruct (inv_fixed_run L es _ s (inv_fixed_init L HL) Hn Hr)
    as (_ & _ & Hv & Hh & Hsum).
  lia.
Qed.

Lemma C1_witness :
  Z.of_nat
    (holders
       {| _max_value := 1; _active_count := 1; _available := 0;
          _waiters := []; _lock := false; tasks := [Released; Holding];
          release_tasks := 0;
          history := [Enqueued 1; Woke 1] |}) <= 1.
Proof.
  apply (C1_granted_permits_never_exceed_limit 1
           [EAcquire; EAcquire; ERelease 0%nat; ERunRelease; EResume 1%nat]).
  - lia.
  - reflexivity.
  - reflexivity.
Defined.

End CMS_fixed.

(** ** The queue discipline, in every execution *)
Module CMS_queue.
Import CMS CMS_ops CMS_lists.

Lemma sorted_sublist (l1 l2 : list nat) :
  sublist l1 l2 -> StronglySorted lt l2 -> StronglySorted lt l1.
Proof.
  induction 1 as [|x l1 l2 Hs IH|x l1 l2 Hs IH]; intros H.
  - constructor.
  - apply StronglySorted_cons in H as [Hx H].
    apply StronglySorted_cons. split; [|auto].
    apply Forall_forall. intros y Hy.
    rewrite Forall_forall in Hx. apply Hx. eapply elem_of_sublist; eauto.
  - apply StronglySorted_cons in H as [_ H]. auto.
Qed.

Lemma sorted_nodup (l : list nat) : StronglySorted lt l -> NoDup l.
Proof.
  induction 1 as [|x l Hs IH Hx]; constructor; [|exact IH].
  intros Hin. rewrite Forall_forall in Hx. specialize (Hx x Hin). lia.
Qed.

Lemma sorted_incl_sublist (l1 l2 : list nat) :
  StronglySorted lt l1 -> StronglySorted lt l2 ->
  (forall x, x ∈ l1 -> x ∈ l2) -> sublist l1 l2.
Proof.
  intros H1 H2. revert l1 H1.
  induction H2 as [|y l2 H2 IH Hy]; intros l1 H1 Hin.
  - destruct l1 as [|x l1]; [constructor|].
    specialize (Hin x (list_elem_of_here _ _)). inversion Hin.
  - rewrite Forall_forall in Hy.
    destruct l1 as [|x l1]; [apply sublist_nil_l|].
    apply StronglySorted_cons in H1 as [Hx H1]. rewrite Forall_forall in Hx.
    destruct (decide (x = y)) as [->|Hne].
    + apply sublist_skip, IH; [exact H1|].
      intros z Hz. specialize (Hin z (list_elem_of_further _ _ _ Hz)).
      apply elem_of_cons in Hin as [->|Hin]; [|exact Hin].
      specialize (Hx y Hz). lia.
    + apply sublist_cons, IH; [apply StronglySorted_cons; split;
        [apply Forall_forall; exact Hx|exact H1]|].
      intros z Hz. pose proof (Hin z Hz) as Hz2.
      apply elem_of_cons in Hz2 as [->|Hz2]; [|exact Hz2].
      exfalso. apply elem_of_cons in Hz as [E|Hz]; [congruence|].
      specialize (Hx y Hz).
      pose proof (Hin x (list_elem_of_here _ _)) as Hx2.
      apply elem_of_cons in Hx2 as [E|Hx2]; [congruence|].
      specialize (Hy x Hx2). lia.
Qed.

Lemma wakes_app (h1 h2 : list signal) : wakes (h1 ++ h2) = wakes h1 ++ wakes h2.
Proof. apply omap_app. Qed.

Lemma enqueues_app (h1 h2 : list signal) :
  enqueues (h1 ++ h2) = enqueues h1 ++ enqueues h2.
Proof. apply omap_app. Qed.

Lemma wakes_woke (l : list nat) : wakes (map Woke l) = l.
Proof. induction l as [|x l IH]; simpl; [reflexivity|]. f_equal. exact IH. Qed.

Lemma wakes_cancel (l : list nat) : wakes (map Cancel l) = [].
Proof. induction l as [|x l IH]; simpl; [reflexivity|exact IH]. Qed.

Lemma enqueues_woke (l : list nat) : enqueues (map Woke l) = [].
Proof. induction l as [|x l IH]; simpl; [reflexivity|exact IH]. Qed.

Lemma enqueues_cancel (l : list nat) : enqueues (map Cancel l) = [].
Proof. induction l as [|x l IH]; simpl; [reflexivity|exact IH]. Qed.

Lemma remove_first_sublist (t : nat) (ws : list nat) :
  sublist (remove_first t ws) ws.
Proof.
  induction ws as [|x ws IH]; simpl; [constructor|].
  destruct (Nat.eqb x t).
  - apply sublist_cons. reflexivity.
  - apply sublist_skip, IH.
Qed.

Lemma remove_first_other (t x : nat) (ws : list nat) :
  x ∈ ws -> x <> t -> x ∈ remove_first t ws.
Proof.
  induction ws as [|y ws IH]; simpl; intros Hin Hne; [inversion Hin|].
  apply elem_of_cons in Hin as [->|Hin].
  - destruct (Nat.eqb_spec y t); [congruence|]. apply list_elem_of_here.
  - destruct (Nat.eqb y t); [exact Hin|].
    apply list_elem_of_further, IH; assumption.
Qed.

Lemma mark_all_await (f : fut_state) (ws : list nat) (tk : list task)
      (t : nat) (f1 : fut_state) (mc : bool) :
  snd (mark_all f ws tk) !! t = Some (AwaitWaiter f1 mc) ->
  exists f0, tk !! t = Some (AwaitWaiter f0 mc).
Proof.
  destruct (decide (t ∈ ws)) as [Hin|Hout].
  - rewrite mark_all_lookup_in by exact Hin.
    destruct (tk !! t) as [[[] mc0| | |]|]; simpl; intros [= <- <-] || intros [=];
      eauto.
  - rewrite mark_all_lookup_out by exact Hout. eauto.
Qed.

Lemma pending_bound (tk : list task) (t : nat) :
  pending tk t = true -> (t < length tk)%nat.
Proof.
  intros H. apply pending_lookup in H as [mc H].
  eapply lookup_lt_Some, H.
Qed.

Lemma queue_enqueue (ws : list nat) (tk : list task) (h : list signal) :
  queue_inv ws tk h ->
  queue_inv (ws ++ [length tk]) (tk ++ [AwaitWaiter Pending false])
            (h ++ [Enqueued (length tk)]).
Proof.
  intros (Hs & Hb & Hp & Hw & Hwp & He & Heb & Hwe & Ha & Hq).
  unfold queue_inv. rewrite wakes_app, enqueues_app, length_app. simpl.
  rewrite app_nil_r.
  assert (Hpend : forall t, pending (tk ++ [AwaitWaiter Pending false]) t = true ->
                       pending tk t = true \/ t = length tk).
  { intros t H. destruct (decide (t < length tk)%nat) as [Hlt|Hge].
    - left. unfold pending in *. rewrite lookup_app_l in H by exact Hlt.
      exact H.
    - right. apply pending_bound in H. rewrite length_app in H. simpl in H.
      lia. }
  repeat split.
  - apply StronglySorted_app_2; [|exact Hs|repeat constructor].
    intros x y Hx Hy. apply list_elem_of_singleton in Hy as ->. auto.
  - intros w Hw0. apply elem_of_app in Hw0 as [Hw0|Hw0].
    + specialize (Hb w Hw0). lia.
    + apply list_elem_of_singleton in Hw0 as ->. lia.
  - intros t Ht. apply elem_of_app.
    destruct (Hpend t Ht) as [H| ->]; [left; auto|right; apply list_elem_of_here].
  - exact Hw.
  - intros g t Hg Ht. destruct (Hpend t Ht) as [H| ->]; [eauto|].
    apply Heb, Hwe, Hg.
  - apply StronglySorted_app_2; [|exact He|repeat constructor].
    intros x y Hx Hy. apply list_elem_of_singleton in Hy as ->. auto.
  - intros e He0. apply elem_of_app in He0 as [He0|He0].
    + specialize (Heb e He0). lia.
    + apply list_elem_of_singleton in He0 as ->. lia.
  - intros g Hg. apply elem_of_app. left. auto.
  - intros t f mc Ht. apply elem_of_app.
    destruct (decide (t < length tk)%nat) as [Hlt|Hge].
    + left. rewrite lookup_app_l in Ht by exact Hlt. eauto.
    + right. apply lookup_lt_Some in Ht. rewrite length_app in Ht.
      simpl in Ht. replace t with (length tk) by lia. apply list_elem_of_here.
  - intros w Hw0. apply elem_of_app.
    apply elem_of_app in Hw0 as [Hw0|Hw0]; auto.
Qed.

Lemma queue_fast (ws : list nat) (tk : list task) (h : list signal) :
  queue_inv ws tk h -> queue_inv ws (tk ++ [Holding]) h.
Proof.
  intros (Hs & Hb & Hp & Hw & Hwp & He & Heb & Hwe & Ha & Hq).
  unfold queue_inv. rewrite length_app. simpl.
  assert (Hlk : forall t k, (tk ++ [Holding]) !! t = Some k -> k <> Holding ->
                       tk !! t = Some k).
  { intros t k H Hk. destruct (decide (t < length tk)%nat) as [Hlt|Hge].
    - rewrite lookup_app_l in H by exact Hlt. exact H.
    - rewrite lookup_app_r in H by lia.
      destruct (t - length tk)%nat; simpl in H; [congruence|discriminate]. }
  assert (Hpend : forall t, pending (tk ++ [Holding]) t = true ->
                       pending tk t = true).
  { intros t H. apply pending_lookup in H as [mc H].
    apply pending_lookup. exists mc. apply Hlk; [exact H|discriminate]. }
  repeat split; auto.
  - intros w Hw0. specialize (Hb w Hw0). lia.
  - intros e He0. specialize (Heb e He0). lia.
  - intros t f mc Ht. apply (Ha t f mc). apply Hlk; [exact Ht|discriminate].
Qed.

Lemma queue_wake (visited rest : list nat) (tk : list task) (h : list signal) :
  queue_inv (visited ++ rest) tk h ->
  queue_inv rest (snd (mark_all Finished visited tk))
            (h ++ map Woke (fst (mark_all Finished visited tk))).
Proof.
  intros (Hs & Hb & Hp & Hw & Hwp & He & Heb & Hwe & Ha & Hq).
  unfold queue_inv.
  rewrite wakes_app, enqueues_app, wakes_woke, enqueues_woke, app_nil_r,
    mark_all_length.
  pose proof (mark_all_sublist Finished visited tk) as Hsub.
  assert (Hpend : forall t,
            pending (snd (mark_all Finished visited tk)) t = true ->
            pending tk t = true /\ t ∈ rest).
  { intros t H. apply mark_all_still_pending in H as [H1 H2]; [|discriminate].
    split; [exact H1|]. specialize (Hp t H1).
    apply elem_of_app in Hp as [Hp|Hp]; [contradiction|exact Hp]. }
  apply StronglySorted_app in Hs as (Hvr & Hsv & Hsr).
  repeat split.
  - exact Hsr.
  - intros w Hin. apply Hb, elem_of_app. right. exact Hin.
  - intros t Ht. apply Hpend, Ht.
  - apply StronglySorted_app_2.
    + intros g x Hg Hx. apply (Hwp g x Hg). eapply mark_all_pending, Hx.
    + exact Hw.
    + eapply sorted_sublist; eauto.
  - intros g t Hg Ht. destruct (Hpend t Ht) as [Ht1 Ht2].
    apply elem_of_app in Hg as [Hg|Hg]; [eauto|].
    apply Hvr; [|exact Ht2]. eapply elem_of_sublist; eauto.
  - exact He.
  - exact Heb.
  - intros g Hg. apply elem_of_app in Hg as [Hg|Hg]; [auto|].
    apply mark_all_pending in Hg. apply pending_lookup in Hg as [mc Hg].
    eapply Ha, Hg.
  - intros t f mc Ht. apply mark_all_await in Ht as [f0 Ht]. eapply Ha, Ht.
  - intros w Hin. apply Hq, elem_of_app. right. exact Hin.
Qed.

Lemma queue_cancel (keep gone : list nat) (tk : list task) (h : list signal) :
  queue_inv (keep ++ gone) tk h ->
  queue_inv keep (snd (mark_all FutCancelled (rev gone) tk))
            (h ++ map Cancel (fst (mark_all FutCancelled (rev gone) tk))).
Proof.
  intros (Hs & Hb & Hp & Hw & Hwp & He & Heb & Hwe & Ha & Hq).
  unfold queue_inv.
  rewrite wakes_app, enqueues_app, wakes_cancel, enqueues_cancel, !app_nil_r,
    mark_all_length.
  assert (Hpend : forall t,
            pending (snd (mark_all FutCancelled (rev gone) tk)) t = true ->
            pending tk t = true /\ t ∈ keep).
  { intros t H. apply mark_all_still_pending in H as [H1 H2]; [|discriminate].
    split; [exact H1|]. specialize (Hp t H1).
    apply elem_of_app in Hp as [Hp|Hp]; [exact Hp|].
    exfalso. apply H2. apply list_elem_of_In, in_rev.
    rewrite rev_involutive. apply list_elem_of_In, Hp. }
  apply StronglySorted_app in Hs as (Hvr & Hsv & Hsr).
  repeat split; auto.
  - intros w Hin. apply Hb, elem_of_app. left. exact Hin.
  - intros t Ht. apply Hpend, Ht.
  - intros g t Hg Ht. apply (Hwp g t Hg). apply Hpend, Ht.
  - intros t f mc Ht. apply mark_all_await in Ht as [f0 Ht]. eapply Ha, Ht.
  - intros w Hin. apply Hq, elem_of_app. left. exact Hin.
Qed.

(** A step that only rewrites the entry of one task, to something that is
    not a pending waiter. *)
Lemma queue_local (ws ws' : list nat) (tk : list task) (h h' : list signal)
      (t : nat) (k k' : task) :
  queue_inv ws tk h ->
  tk !! t = Some k ->
  (forall mc, k' <> AwaitWaiter Pending mc) ->
  (forall f mc, k' = AwaitWaiter f mc -> exists f0 mc0, k = AwaitWaiter f0 mc0) ->
  sublist ws' ws ->
  (forall x, x ∈ ws -> x <> t -> x ∈ ws') ->
  wakes h' = wakes h ->
  enqueues h' = enqueues h ->
  queue_inv ws' (<[t := k']> tk) h'.
Proof.
  intros (Hs & Hb & Hp & Hw & Hwp & He & Heb & Hwe & Ha & Hq)
         Ht Hnp Haw Hsub Hkeep Ewk Eenq.
  unfold queue_inv. rewrite Ewk, Eenq, length_insert.
  assert (Hpend : forall x, pending (<[t := k']> tk) x = true ->
                       pending tk x = true /\ x <> t).
  { intros x H. apply pending_lookup in H as [mc H].
    destruct (decide (t = x)) as [->|Hne].
    - rewrite list_lookup_insert_eq in H by (eapply lookup_lt_Some, Ht).
      injection H as H. exfalso. eapply Hnp, H.
    - rewrite list_lookup_insert_ne in H by exact Hne.
      split; [|congruence]. apply pending_lookup. eauto. }
  repeat split; auto.
  - eapply sorted_sublist; eauto.
  - intros w Hin. apply Hb. eapply elem_of_sublist; eauto.
  - intros x Hx. destruct (Hpend x Hx) as [H1 H2]. auto.
  - intros g x Hg Hx. apply (Hwp g x Hg), Hpend, Hx.
  - intros x f mc Hx. destruct (decide (t = x)) as [->|Hne].
    + rewrite list_lookup_insert_eq in Hx by (eapply lookup_lt_Some, Ht).
      injection Hx as Hx. destruct (Haw f mc Hx) as (f0 & mc0 & ->).
      eapply Ha, Ht.
    + rewrite list_lookup_insert_ne in Hx by exact Hne. eapply Ha, Hx.
  - intros w Hin. apply Hq. eapply elem_of_sublist; eauto.
Qed.

Lemma inv_queue_init (L : Z) : inv_queue (__init__ L).
Proof.
  split; [reflexivity|]. unfold queue_inv. simpl.
  repeat split; try constructor; intros; try (exfalso; eapply not_elem_of_nil; eassumption); try discriminate.
Qed.

Lemma mark_all_skip (f : fut_state) (pre l : list nat) (tk : list task) :
  Forall (fun x => pending tk x = false) pre ->
  mark_all f (pre ++ l) tk = mark_all f l tk.
Proof.
  induction 1 as [|x pre Hx Hpre IH]; simpl; [reflexivity|].
  rewrite Hx. exact IH.
Qed.

Lemma queue_release_some (ws : list nat) (tk : list task) (h : list signal)
      (w : nat) (rest : list nat) :
  queue_inv ws tk h ->
  first_pending tk ws = Some (w, rest) ->
  queue_inv rest (alter (mark Finished) w tk) (h ++ [Woke w]).
Proof.
  intros HQ Hf. apply first_pending_some in Hf as (pre & -> & Hpre & Hw).
  replace (pre ++ w :: rest) with ((pre ++ [w]) ++ rest) in HQ
    by (rewrite <- app_assoc; reflexivity).
  apply queue_wake in HQ.
  rewrite mark_all_skip in HQ by exact Hpre. simpl in HQ.
  rewrite Hw in HQ. simpl in HQ. exact HQ.
Qed.

Lemma queue_release_none (ws : list nat) (tk : list task) (h : list signal) :
  queue_inv ws tk h ->
  first_pending tk ws = None ->
  queue_inv [] tk h.
Proof.
  intros HQ Hf. apply first_pending_none in Hf.
  rewrite <- (app_nil_r ws) in HQ. apply queue_wake in HQ.
  rewrite <- (app_nil_r ws), mark_all_skip in HQ by exact Hf.
  simpl in HQ. rewrite app_nil_r in HQ. exact HQ.
Qed.

Lemma inv_queue_step (e : event) (s s' : state) :
  inv_queue s -> step e s = Some s' -> inv_queue s'.
Proof.
  intros [Hl HQ] Hs. unfold inv_queue.
  destruct e as [|t|t|t| |n]; simpl in Hs.
  - destruct (Z_lt_le_dec 0 (_available s)) as [Hpos|Hnp].
    + rewrite acquire_fast in Hs by assumption. injection Hs as <-. simpl.
      split; [exact Hl|]. apply queue_fast, HQ.
    + rewrite acquire_slow in Hs by assumption. injection Hs as <-. simpl.
      split; [exact Hl|]. apply queue_enqueue, HQ.
  - destruct (tasks s !! t) as [[f mc| | |]|] eqn:Ht;
      try (unfold acquire_resume in Hs; rewrite Ht in Hs; discriminate).
    assert (Hc : forall f0, f0 = FutCancelled \/ f0 = Finished /\ mc = true ->
               f = f0 -> inv_queue s').
    { intros f0 Hf0 ->.
      rewrite (resume_cancelled t s f0 mc Ht Hf0) in Hs.
      injection Hs as <-. simpl. split; [exact Hl|].
      eapply (queue_local _ _ _ _ _ t _ Failed HQ Ht); try reflexivity.
      - discriminate.
      - discriminate.
      - apply remove_first_sublist.
      - intros x Hx Hne. apply remove_first_other; assumption. }
    destruct f.
    + unfold acquire_resume in Hs. rewrite Ht in Hs. discriminate.
    + destruct mc; [apply (Hc Finished); auto|].
      rewrite (resume_granted t s Hl Ht) in Hs. injection Hs as <-. simpl.
      split; [exact Hl|].
      eapply (queue_local _ _ _ _ _ t _ Holding HQ Ht); try reflexivity;
        try discriminate; auto.
    + apply (Hc FutCancelled); auto.
  - destruct (tasks s !! t) as [[f mc| | |]|] eqn:Ht; try discriminate.
    unfold task_cancel, cancel in Hs. rewrite Ht in Hs.
    destruct f; simpl in Hs; injection Hs as <-; simpl;
      (split; [exact Hl|]);
      (eapply (queue_local _ _ _ _ _ t _ _ HQ Ht);
       [discriminate| intros ? ? _; eauto | reflexivity | auto
       | try reflexivity | try reflexivity ]).
    + rewrite wakes_app. simpl. apply app_nil_r.
    + rewrite enqueues_app. simpl. apply app_nil_r.
  - destruct (tasks s !! t) as [[f mc| | |]|] eqn:Ht; try discriminate.
    simpl in Hs. injection Hs as <-. simpl. split; [exact Hl|].
    eapply (queue_local _ _ _ _ _ t _ Released HQ Ht); try reflexivity;
      try discriminate; auto.
  - destruct (release_tasks s) as [|n] eqn:Hr; [discriminate|].
    rewrite release_async_spec in Hs by (simpl; assumption). simpl in Hs.
    destruct (first_pending (tasks s) (_waiters s)) as [[w rest]|] eqn:Hp;
      injection Hs as <-; simpl; (split; [exact Hl|]).
    + eapply queue_release_some; eauto.
    + eapply queue_release_none; eauto.
  - destruct (Z_le_gt_dec n 0) as [Hn|Hn].
    { rewrite update_limit_nonpositive in Hs by exact Hn.
      injection Hs as <-. split; assumption. }
    destruct (Z.lt_trichotomy n (_max_value s)) as [Hlt|[Heq|Hgt]].
    + rewrite update_limit_shrink in Hs by (assumption || lia).
      injection Hs as <-. simpl. split; [exact Hl|].
      apply queue_cancel. rewrite take_drop. exact HQ.
    + rewrite update_limit_same in Hs by (assumption || lia).
      injection Hs as <-. split; assumption.
    + rewrite update_limit_grow in Hs by (assumption || lia).
      destruct (n - _active_count s <? 0); injection Hs as <-; simpl;
        (split; [exact Hl|]); [exact HQ|].
      apply queue_wake. rewrite take_drop. exact HQ.
Qed.

Lemma inv_queue_run (es : list event) (s s' : state) :
  inv_queue s -> run es s = Some s' -> inv_queue s'.
Proof.
  revert s. induction es as [|e es IH]; intros s Hi Hr; simpl in *.
  - injection Hr as <-. exact Hi.
  - destruct (step e s) as [s1|] eqn:Hs; [|discriminate].
    apply (IH s1); [eapply inv_queue_step; eassumption|exact Hr].
Qed.

End CMS_queue.

(** ** Properties of the specification: the queue *)
Module CMS_fifo.
Import CMS CMS_ops CMS_lists CMS_queue.

Lemma reachable_inv (L : Z) (es : list event) (s : state) :
  run es (__init__ L) = Some s -> inv_queue s.
Proof. apply inv_queue_run, inv_queue_init. Qed.

(** C7.  In every execution (so in particular under a constant limit and
    without shrinking): [acquire] appends the new waiter at the tail of
    the queue; the indices of the waiters record the order in which they
    were appended; the waiters woken so far were woken in exactly that
    order; the queue keeps that order; and no waiter still pending is
    older than a waiter that was woken, that is, every grant went to the
    head-most waiter still pending. *)
Theorem C7_waiters_granted_in_fifo_order
        (L : Z) (es : list event) (s : state) :
  run es (__init__ L) = Some s ->
  (_available s <= 0 ->
   exists s1,
     step EAcquire s = Some s1 /\
     _waiters s1 = _waiters s ++ [length (tasks s)] /\
     enqueues (history s1) = enqueues (history s) ++ [length (tasks s)]) /\
  StronglySorted lt (enqueues (history s)) /\
  sublist (wakes (history s)) (enqueues (history s)) /\
  sublist (_waiters s) (enqueues (history s)) /\
  (forall g t,
     g ∈ wakes (history s) -> pending (tasks s) t = true -> (g < t)%nat).
Proof.
  intros Hr. destruct (reachable_inv L es s Hr)
    as (Hl & Hs & Hb & Hp & Hw & Hwp & He & Heb & Hwe & Ha & Hq).
  split; [|split; [|split; [|split]]].
  - intros Hv. simpl. rewrite acquire_slow by assumption. simpl.
    eexists. split; [reflexivity|]. simpl. split; [reflexivity|].
    rewrite enqueues_app. reflexivity.
  - exact He.
  - apply sorted_incl_sublist; assumption.
  - apply sorted_incl_sublist; assumption.
  - exact Hwp.
Qed.

Lemma C7_witness :
  sublist (wakes [Enqueued 1; Enqueued 2; Woke 1; Woke 2])
          (enqueues [Enqueued 1; Enqueued 2; Woke 1; Woke 2]).
Proof.
  apply (C7_waiters_granted_in_fifo_order 1
           [EAcquire; EAcquire; EAcquire; ERelease 0%nat; ERunRelease;
            EResume 1%nat; ERelease 1%nat; ERunRelease]
           {| _max_value := 1; _active_count := 0; _available := 0;
              _waiters := []; _lock := false;
              tasks := [Released; Released; AwaitWaiter Finished false];
              release_tasks := 0;
              history := [Enqueued 1; Enqueued 2; Woke 1; Woke 2] |}).
  reflexivity.
Defined.

End CMS_fifo.

(** ** Properties of the specification: release *)
Module CMS_release.
Import CMS CMS_ops CMS_lists CMS_queue CMS_fifo.

(** C8 fails as stated: [release()] called where no event loop is running
    (here by the holder of the only permit) raises [RuntimeError] from
    [asyncio.create_task]; no [_release_async()] task is created and the
    permit stays counted as active. *)
Lemma C8_counterexample :
  let s :=
    {| _max_value := 1; _active_count := 1; _available := 0;
       _waiters := []; _lock := false; tasks := [Holding];
       release_tasks := 0; history := [] |} in
  run [EAcquire] (__init__ 1) = Some s /\
  release false s = Raise RuntimeError s /\
  release false s <> Ok tt (set_release_tasks (S (release_tasks s)) s).
Proof.
  cbv zeta. split; [reflexivity|]. split; [reflexivity|]. discriminate.
Qed.

(** C8, amended.  In every state an execution can reach, [release()] never
    suspends its caller, whatever the call context; called from code run
    by the event loop it returns at once having only created the
    [_release_async()] task, and that task runs to its end without
    suspending on the lock and without raising.  The task decrements
    [_active_count] and leaves it so; then either it wakes the head-most
    waiter of the queue that is still pending (the waiters before it,
    already done, are dropped) and leaves [_available] unchanged, the woken
    waiter adding itself to [_active_count] when it runs again; or no
    waiter is pending, the queue is emptied and [_available] grows by
    one. *)
Theorem C8_release_in_running_loop_never_fails
        (L : Z) (es : list event) (s : state) :
  run es (__init__ L) = Some s ->
  (forall running_loop,
     release running_loop s <> Block /\ release running_loop s <> Diverge) /\
  release true s = Ok tt (set_release_tasks (S (release_tasks s)) s) /\
  exists s2,
    _release_async s = Ok tt s2 /\
    _lock s2 = false /\
    _max_value s2 = _max_value s /\
    _active_count s2 = _active_count s - 1 /\
    ((exists w pre,
        _waiters s = pre ++ w :: _waiters s2 /\
        Forall (fun x => pending (tasks s) x = false) pre /\
        pending (tasks s) w = true /\
        (forall t, pending (tasks s) t = true -> (w <= t)%nat) /\
        tasks s2 = alter (mark Finished) w (tasks s) /\
        history s2 = history s ++ [Woke w] /\
        _available s2 = _available s /\
        (tasks s !! w = Some (AwaitWaiter Pending false) ->
         exists s3,
           acquire_resume w s2 = Ok tt s3 /\
           _active_count s3 = _active_count s /\
           tasks s3 !! w = Some Holding))
     \/
     (Forall (fun x => pending (tasks s) x = false) (_waiters s) /\
      _waiters s2 = [] /\
      tasks s2 = tasks s /\
      history s2 = history s /\
      _available s2 = _available s + 1)).
Proof.
  intros Hr. destruct (reachable_inv L es s Hr)
    as (Hl & Hs & Hb & Hp & Hw & Hwp & He & Heb & Hwe & Ha & Hq).
  split; [intros [|]; split; discriminate|].
  split; [reflexivity|].
  rewrite release_async_spec by exact Hl.
  destruct (first_pending (tasks s) (_waiters s)) as [[w rest]|] eqn:Hf.
  - eexists. split; [reflexivity|]. simpl.
    split; [exact Hl|]. split; [reflexivity|]. split; [reflexivity|].
    left. apply first_pending_some in Hf as (pre & E & Hpre & Hpw).
    exists w, pre. split; [exact E|]. split; [exact Hpre|].
    split; [exact Hpw|]. split.
    { intros t Ht. specialize (Hp t Ht). rewrite E in Hp, Hs.
      apply elem_of_app in Hp as [Hp|Hp].
      - rewrite Forall_forall in Hpre. rewrite (Hpre t Hp) in Ht.
        discriminate.
      - apply elem_of_cons in Hp as [->|Hp]; [lia|].
        apply StronglySorted_app in Hs as (_ & _ & Hs).
        apply StronglySorted_cons in Hs as [Hs _].
        rewrite Forall_forall in Hs. specialize (Hs t Hp). lia. }
    split; [reflexivity|]. split; [reflexivity|]. split; [reflexivity|].
    intros Hw0.
    assert (Hlk : alter (mark Finished) w (tasks s) !! w =
                  Some (AwaitWaiter Finished false)).
    { rewrite list_lookup_alter_eq, Hw0. reflexivity. }
    rewrite resume_granted by (simpl; assumption).
    eexists. split; [reflexivity|]. simpl. split; [lia|].
    apply list_lookup_insert_eq. rewrite length_alter.
    eapply lookup_lt_Some, Hw0.
  - eexists. split; [reflexivity|]. simpl.
    split; [exact Hl|]. split; [reflexivity|]. split; [reflexivity|].
    right. apply first_pending_none in Hf. auto.
Qed.

Lemma C8_witness :
  exists s2,
    _release_async
      {| _max_value := 1; _active_count := 1; _available := 0;
         _waiters := [1%nat]; _lock := false;
         tasks := [Holding; AwaitWaiter Pending false];
         release_tasks := 0; history := [Enqueued 1] |} = Ok tt s2 /\
    _lock s2 = false /\
    _active_count s2 = 1 - 1.
Proof.
  pose proof (C8_release_in_running_loop_never_fails 1 [EAcquire; EAcquire]
                {| _max_value := 1; _active_count := 1; _available := 0;
                   _waiters := [1%nat]; _lock := false;
                   tasks := [Holding; AwaitWaiter Pending false];
                   release_tasks := 0; history := [Enqueued 1] |}
                eq_refl) as (_ & _ & s2 & E & El & _ & Ha & _).
  exists s2. split; [exact E|]. split; [exact El|exact Ha].
Defined.

End CMS_release.

(** ** Properties of the specification: resizing *)
Module CMS_resize.
Import CMS CMS_ops CMS_lists CMS_queue CMS_fifo.

Lemma filter_length_le (p : nat -> bool) (l : list nat) :
  (length (List.filter p l) <= length l)%nat.
Proof.
  induction l as [|x l IH]; simpl; [lia|]. destruct (p x); simpl; lia.
Qed.

Lemma filter_elem (p : nat -> bool) (l : list nat) (x : nat) :
  x ∈ List.filter p l <-> x ∈ l /\ p x = true.
Proof. rewrite !list_elem_of_In. apply filter_In. Qed.

(** C3.  Shrinking.  In a reachable state with limit 2, two active holders
    and one pending waiter in the queue, [update_limit(1)] leaves
    [_active_count] at 2, sets [_available] to 0 and cancels the waiter,
    whose [acquire()] then raises [CancelledError].  For every shrink to
    [n], with [allowed_waiting = max(0, n - active)]: the queue keeps its
    first [allowed_waiting] waiters, so its length is at most
    [allowed_waiting]; the waiters removed are those at the tail, visited
    newest first, and exactly the pending ones among them are cancelled, in
    that order; and when [n < active], [_available] is 0. *)
Theorem C3_shrink_cancels_waiters_from_the_tail
        (L : Z) (es : list event) (s : state) :
  run es (__init__ L) = Some s ->
  (forall w mc,
     _max_value s = 2 -> _active_count s = 2 -> _waiters s = [w] ->
     tasks s !! w = Some (AwaitWaiter Pending mc) ->
     exists s' s'',
       update_limit 1 s = Ok tt s' /\
       _max_value s' = 1 /\ _active_count s' = 2 /\ _available s' = 0 /\
       _waiters s' = [] /\
       tasks s' !! w = Some (AwaitWaiter FutCancelled mc) /\
       history s' = history s ++ [Cancel w] /\
       acquire_resume w s' = Raise CancelledError s'' /\
       _active_count s'' = 2 /\ _available s'' = 0 /\
       tasks s'' !! w = Some Failed) /\
  (forall n,
     0 < n -> n < _max_value s ->
     let allowed_waiting := Z.max 0 (n - _active_count s) in
     let k := Z.to_nat allowed_waiting in
     let removed := rev (drop k (_waiters s)) in
     exists s',
       update_limit n s = Ok tt s' /\
       _max_value s' = n /\
       _active_count s' = _active_count s /\
       _waiters s' = take k (_waiters s) /\
       Z.of_nat (length (_waiters s')) <= allowed_waiting /\
       history s' =
         history s ++ map Cancel (List.filter (pending (tasks s)) removed) /\
       (forall t, t ∈ removed ->
                  tasks s' !! t = mark FutCancelled <$> (tasks s !! t)) /\
       (forall t, t ∉ removed -> tasks s' !! t = tasks s !! t) /\
       _available s' = allowed_waiting /\
       (n < _active_count s -> _available s' = 0)).
Proof.
  intros Hr. destruct (reachable_inv L es s Hr)
    as (Hl & Hs & Hb & Hp & Hw & Hwp & He & Heb & Hwe & Ha & Hq).
  assert (General : forall n,
     0 < n -> n < _max_value s ->
     let allowed_waiting := Z.max 0 (n - _active_count s) in
     let k := Z.to_nat allowed_waiting in
     let removed := rev (drop k (_waiters s)) in
     exists s',
       update_limit n s = Ok tt s' /\
       _max_value s' = n /\
       _active_count s' = _active_count s /\
       _waiters s' = take k (_waiters s) /\
       Z.of_nat (length (_waiters s')) <= allowed_waiting /\
       history s' =
         history s ++ map Cancel (List.filter (pending (tasks s)) removed) /\
       (forall t, t ∈ removed ->
                  tasks s' !! t = mark FutCancelled <$> (tasks s !! t)) /\
       (forall t, t ∉ removed -> tasks s' !! t = tasks s !! t) /\
       _available s' = allowed_waiting /\
       (n < _active_count s -> _available s' = 0)).
  { intros n Hn Hlt allowed_waiting k removed.
    rewrite update_limit_shrink by assumption.
    eexists. split; [reflexivity|]. simpl.
    fold allowed_waiting. fold k. fold removed.
    split; [reflexivity|]. split; [reflexivity|]. split; [reflexivity|].
    split.
    { rewrite length_take. unfold k. lia. }
    split.
    { rewrite mark_all_filter; [reflexivity|discriminate|].
      unfold removed. apply NoDup_ListNoDup, List.NoDup_rev, NoDup_ListNoDup.
      eapply sublist_NoDup; [|apply sublist_drop].
      apply sorted_nodup, Hs. }
    split; [intros t Ht; apply mark_all_lookup_in, Ht|].
    split; [intros t Ht; apply mark_all_lookup_out, Ht|].
    split; [reflexivity|].
    intros Hover. unfold allowed_waiting. lia. }
  split; [|exact General].
  intros w mc Hm Hact Hws Htw.
  destruct (General 1) as (s' & E & E1 & E2 & E3 & E4 & E5 & E6 & E7 & E8 & E9);
    [lia|lia|].
  rewrite Hact in E3, E5, E6, E8. rewrite Hws in E3, E5, E6.
  change (Z.to_nat (0 `max` (1 - 2))) with 0%nat in E3, E5, E6.
  change (0 `max` (1 - 2)) with 0 in E8.
  cbn [take drop rev app List.filter] in E3, E5, E6.
  assert (Hpw : pending (tasks s) w = true)
    by (apply pending_lookup; eauto).
  rewrite Hpw in E5. cbn [map] in E5.
  assert (Hlk : tasks s' !! w = Some (AwaitWaiter FutCancelled mc)).
  { rewrite E6 by apply list_elem_of_here. rewrite Htw. reflexivity. }
  exists s'. eexists. split; [exact E|].
  split; [exact E1|]. split; [lia|]. split; [exact E8|].
  split; [exact E3|]. split; [exact Hlk|]. split; [exact E5|].
  split; [apply (resume_cancelled w s' FutCancelled mc Hlk); auto|].
  cbn [_active_count _available tasks set_tasks set_waiters].
  split; [lia|]. split; [exact E8|].
  apply list_lookup_insert_eq. eapply lookup_lt_Some, Hlk.
Qed.

Lemma C3_witness :
  exists s',
    update_limit 1
      {| _max_value := 2; _active_count := 2; _available := 0;
         _waiters := [2%nat]; _lock := false;
         tasks := [Holding; Holding; AwaitWaiter Pending false];
         release_tasks := 0; history := [Enqueued 2] |} = Ok tt s' /\
    _active_count s' = 2 /\ _available s' = 0 /\ _waiters s' = [] /\
    tasks s' !! 2%nat = Some (AwaitWaiter FutCancelled false).
Proof.
  pose proof (C3_shrink_cancels_waiters_from_the_tail 2
                [EAcquire; EAcquire; EAcquire]
                {| _max_value := 2; _active_count := 2; _available := 0;
                   _waiters := [2%nat]; _lock := false;
                   tasks := [Holding; Holding; AwaitWaiter Pending false];
                   release_tasks := 0; history := [Enqueued 2] |}
                eq_refl) as [H _].
  specialize (H 2%nat false eq_refl eq_refl eq_refl eq_refl).
  destruct H as (s' & s'' & E & _ & E2 & E3 & E4 & E5 & _).
  exists s'.
  split; [exact E|]. split; [exact E2|]. split; [exact E3|].
  split; [exact E4|exact E5].
Defined.

(** C4.  Growing.  In a reachable state, for [update_limit(n)] with
    [n] above the old limit and [delta = n - active >= 0]: the first
    [k = min(len(queue), delta)] waiters leave the queue from its head; the
    pending ones among them are woken, oldest first, and they are at most
    [k]; [_available] ends at [delta] minus the number of waiters woken;
    and a woken waiter adds one to [_active_count] when it runs again.
    From limit 1, one active holder and waiters [A; B], [update_limit(3)]
    wakes A then B and, once both have run, [_active_count] is 3 and
    [_available] is 0. *)
Theorem C4_grow_wakes_waiters_from_the_head
        (L : Z) (es : list event) (s : state) :
  run es (__init__ L) = Some s ->
  (forall n,
     0 < n -> _max_value s < n -> 0 <= n - _active_count s ->
     let delta := n - _active_count s in
     let k := Z.to_nat (Z.min (Z.of_nat (length (_waiters s))) delta) in
     let woken := List.filter (pending (tasks s)) (take k (_waiters s)) in
     exists s',
       update_limit n s = Ok tt s' /\
       _max_value s' = n /\
       _active_count s' = _active_count s /\
       _waiters s' = drop k (_waiters s) /\
       history s' = history s ++ map Woke woken /\
       Z.of_nat (length woken) <=
         Z.min (Z.of_nat (length (_waiters s))) delta /\
       _available s' = delta - Z.of_nat (length woken) /\
       (forall t, t ∈ take k (_waiters s) ->
                  tasks s' !! t = mark Finished <$> (tasks s !! t)) /\
       (forall t, t ∉ take k (_waiters s) -> tasks s' !! t = tasks s !! t) /\
       (forall w, w ∈ woken ->
                  tasks s !! w = Some (AwaitWaiter Pending false) ->
                  exists s'',
                    acquire_resume w s' = Ok tt s'' /\
                    _active_count s'' = _active_count s' + 1 /\
                    _available s'' = _available s' /\
                    tasks s'' !! w = Some Holding)) /\
  (forall A B,
     _max_value s = 1 -> _active_count s = 1 -> _waiters s = [A; B] ->
     tasks s !! A = Some (AwaitWaiter Pending false) ->
     tasks s !! B = Some (AwaitWaiter Pending false) ->
     exists s1 s3,
       update_limit 3 s = Ok tt s1 /\
       history s1 = history s ++ [Woke A; Woke B] /\
       _waiters s1 = [] /\
       _active_count s1 = 1 /\ _available s1 = 0 /\
       run [EResume A; EResume B] s1 = Some s3 /\
       _active_count s3 = 3 /\ _available s3 = 0 /\
       tasks s3 !! A = Some Holding /\ tasks s3 !! B = Some Holding).
Proof.
  intros Hr. destruct (reachable_inv L es s Hr)
    as (Hl & Hs & Hb & Hp & Hw & Hwp & He & Heb & Hwe & Ha & Hq).
  assert (General : forall n,
     0 < n -> _max_value s < n -> 0 <= n - _active_count s ->
     let delta := n - _active_count s in
     let k := Z.to_nat (Z.min (Z.of_nat (length (_waiters s))) delta) in
     let woken := List.filter (pending (tasks s)) (take k (_waiters s)) in
     exists s',
       update_limit n s = Ok tt s' /\
       _lock s' = false /\
       _max_value s' = n /\
       _active_count s' = _active_count s /\
       _waiters s' = drop k (_waiters s) /\
       history s' = history s ++ map Woke woken /\
       Z.of_nat (length woken) <=
         Z.min (Z.of_nat (length (_waiters s))) delta /\
       _available s' = delta - Z.of_nat (length woken) /\
       (forall t, t ∈ take k (_waiters s) ->
                  tasks s' !! t = mark Finished <$> (tasks s !! t)) /\
       (forall t, t ∉ take k (_waiters s) -> tasks s' !! t = tasks s !! t)).
  { intros n Hn Hgt Hd delta k woken.
    rewrite update_limit_grow by assumption.
    replace (n - _active_count s <? 0) with false
      by (symmetry; apply Z.ltb_ge; exact Hd).
    eexists. split; [reflexivity|].
    cbn [_lock _max_value _active_count _waiters history _available tasks
         set_history set_tasks set_available set_waiters set_max_value].
    fold delta. fold k.
    assert (Hnd : NoDup (take k (_waiters s))).
    { eapply sublist_NoDup; [|apply sublist_take]. apply sorted_nodup, Hs. }
    rewrite (mark_all_filter Finished _ (tasks s)) by (discriminate || exact Hnd).
    fold woken.
    split; [exact Hl|]. split; [reflexivity|]. split; [reflexivity|].
    split; [reflexivity|]. split; [reflexivity|].
    split.
    { pose proof (filter_length_le (pending (tasks s)) (take k (_waiters s)))
        as Hle.
      fold woken in Hle. rewrite length_take in Hle. unfold k in Hle. lia. }
    split; [reflexivity|].
    split; [intros t Ht; apply mark_all_lookup_in, Ht|].
    intros t Ht; apply mark_all_lookup_out, Ht. }
  split.
  - intros n Hn Hgt Hd delta k woken.
    destruct (General n Hn Hgt Hd)
      as (s' & E & El & E1 & E2 & E3 & E4 & E5 & E6 & E7 & E8).
    exists s'. split; [exact E|]. split; [exact E1|]. split; [exact E2|].
    split; [exact E3|]. split; [exact E4|]. split; [exact E5|].
    split; [exact E6|]. split; [exact E7|]. split; [exact E8|].
    intros w Hw0 Htw.
    apply filter_elem in Hw0 as [Hin _].
    assert (Hlk : tasks s' !! w = Some (AwaitWaiter Finished false)).
    { rewrite (E7 w Hin), Htw. reflexivity. }
    rewrite (resume_granted w s' El Hlk).
    eexists. split; [reflexivity|].
    cbn [_active_count _available tasks set_tasks set_active_count].
    split; [reflexivity|]. split; [reflexivity|].
    apply list_lookup_insert_eq. eapply lookup_lt_Some, Hlk.
  - intros A B Hm Hact Hws HA HB.
    destruct (General 3) as (s1 & E & El & E1 & E2 & E3 & E4 & E5 & E6 & E7 & E8);
      [lia|lia|lia|].
    rewrite Hact in E3, E4, E5, E6, E7, E8.
    rewrite Hws in E3, E4, E5, E6, E7, E8.
    change (Z.to_nat (Z.of_nat (length [A; B]) `min` (3 - 1))) with 2%nat
      in E3, E4, E6, E7, E8.
    cbn [take drop List.filter] in E3, E4, E6, E7.
    assert (HpA : pending (tasks s) A = true) by (apply pending_lookup; eauto).
    assert (HpB : pending (tasks s) B = true) by (apply pending_lookup; eauto).
    rewrite HpA, HpB in E4, E6. cbn [map length] in E4, E6.
    assert (HAB : A <> B).
    { rewrite Hws in Hs. apply StronglySorted_cons in Hs as [Hs _].
      rewrite Forall_forall in Hs.
      specialize (Hs B (list_elem_of_here _ _)). lia. }
    assert (HlA : tasks s1 !! A = Some (AwaitWaiter Finished false)).
    { rewrite E7 by apply list_elem_of_here. rewrite HA. reflexivity. }
    assert (HlB : tasks s1 !! B = Some (AwaitWaiter Finished false)).
    { rewrite E7 by (apply list_elem_of_further, list_elem_of_here).
      rewrite HB. reflexivity. }
    exists s1. eexists.
    split; [exact E|]. split; [exact E4|]. split; [exact E3|].
    split; [lia|]. split; [lia|].
    cbn [run step].
    rewrite (resume_granted A s1 El HlA). cbn [after].
    rewrite resume_granted;
      [|exact El
       |cbn [tasks set_tasks set_active_count];
        rewrite list_lookup_insert_ne by exact HAB; exact HlB].
    cbn [after]. split; [reflexivity|].
    cbn [_active_count _available tasks set_tasks set_active_count].
    split; [lia|]. split; [lia|]. split.
    + rewrite list_lookup_insert_ne by congruence.
      apply list_lookup_insert_eq. eapply lookup_lt_Some, HlA.
    + apply list_lookup_insert_eq. rewrite length_insert.
      eapply lookup_lt_Some, HlB.
Qed.

Lemma C4_witness :
  exists s1 s3,
    update_limit 3
      {| _max_value := 1; _active_count := 1; _available := 0;
         _waiters := [1%nat; 2%nat]; _lock := false;
         tasks := [Holding; AwaitWaiter Pending false;
                   AwaitWaiter Pending false];
         release_tasks := 0; history := [Enqueued 1; Enqueued 2] |}
    = Ok tt s1 /\
    history s1 = [Enqueued 1; Enqueued 2; Woke 1; Woke 2] /\
    run [EResume 1%nat; EResume 2%nat] s1 = Some s3 /\
    _active_count s3 = 3 /\ _available s3 = 0.
Proof.
  pose proof (C4_grow_wakes_waiters_from_the_head 1
                [EAcquire; EAcquire; EAcquire]
                {| _max_value := 1; _active_count := 1; _available := 0;
                   _waiters := [1%nat; 2%nat]; _lock := false;
                   tasks := [Holding; AwaitWaiter Pending false;
                             AwaitWaiter Pending false];
                   release_tasks := 0;
                   history := [Enqueued 1; Enqueued 2] |}
                eq_refl) as [_ H].
  specialize (H 1%nat 2%nat eq_refl eq_refl eq_refl eq_refl eq_refl).
  destruct H as (s1 & s3 & E & E1 & _ & _ & _ & E2 & E3 & E4 & _).
  exists s1, s3.
  split; [exact E|]. split; [exact E1|]. split; [exact E2|].
  split; [exact E3|exact E4].
Defined.

End CMS_resize.

(** ** Properties of the specification: cancellation *)
Module CMS_cancel.
Import CMS CMS_ops.

(** A waiter that was woken and then cancelled before it ran again: its
    [acquire()] raises [CancelledError], nothing is added to
    [_active_count] and nothing is given back to [_available]. *)
Lemma cancelled_after_grant (t : nat) (s : state) :
  tasks s !! t = Some (AwaitWaiter Finished true) ->
  exists s',
    acquire_resume t s = Raise CancelledError s' /\
    _active_count s' = _active_count s /\
    _available s' = _available s /\
    tasks s' !! t = Some Failed /\
    granted s' = pred (granted s).
Proof.
  intros Ht.
  rewrite (resume_cancelled t s Finished true Ht) by auto.
  eexists. split; [reflexivity|].
  cbn [_active_count _available tasks set_tasks set_waiters].
  split; [reflexivity|]. split; [reflexivity|]. split.
  - apply list_lookup_insert_eq. eapply lookup_lt_Some, Ht.
  - unfold granted. cbn [tasks set_tasks set_waiters].
    pose proof (count_insert is_granted (tasks s) t _ Failed Ht) as C.
    simpl in C. lia.
Qed.

(** C2.  The code at the race: limit 1, task 0 holds the permit, task 1
    waits; task 0 releases, [_release_async()] wakes task 1, and task 1 is
    cancelled before it runs again.  Its [acquire()] raises
    [CancelledError], and the final state has no holder, no free permit, no
    waiter and no release to run: the permit is gone, and the next
    [acquire()] suspends although nobody holds a permit. *)
Theorem C2_cancel_after_grant_loses_the_permit :
  let before :=
    {| _max_value := 1; _active_count := 0; _available := 0;
       _waiters := []; _lock := false;
       tasks := [Released; AwaitWaiter Finished true];
       release_tasks := 0; history := [Enqueued 1; Woke 1] |} in
  let final :=
    {| _max_value := 1; _active_count := 0; _available := 0;
       _waiters := []; _lock := false; tasks := [Released; Failed];
       release_tasks := 0; history := [Enqueued 1; Woke 1] |} in
  run [EAcquire; EAcquire; ERelease 0%nat; ERunRelease; ECancel 1%nat]
      (__init__ 1) = Some before /\
  permits before = 1 /\
  acquire_resume 1%nat before = Raise CancelledError final /\
  holders final = 0%nat /\
  permits final = 0 /\
  acquire final =
    Ok false
      {| _max_value := 1; _active_count := 0; _available := 0;
         _waiters := [2%nat]; _lock := false;
         tasks := [Released; Failed; AwaitWaiter Pending false];
         release_tasks := 0;
         history := [Enqueued 1; Woke 1; Enqueued 2] |}.
Proof.
  cbv zeta. split; [reflexivity|]. split; [reflexivity|].
  split; [reflexivity|]. split; [reflexivity|]. split; reflexivity.
Qed.

End CMS_cancel.

(** ** [update_limit] with an invalid or an unchanged limit *)
Module Limits.

Lemma cancellable_rejects_nonpositive (n : Z) (s : CMS.state) :
  n <= 0 -> CMS.update_limit n s = Raise ValueError s.
Proof. apply CMS_ops.update_limit_nonpositive. Qed.

Lemma cancellable_same_limit_noop (s : CMS.state) :
  CMS._lock s = false -> 0 < CMS._max_value s ->
  CMS.update_limit (CMS._max_value s) s = Ok tt s.
Proof. intros Hl Hp. apply CMS_ops.update_limit_same; auto. Qed.

Lemma monitored_swallows_nonpositive (n : Z) (s : MS.state) :
  n <= 0 -> MS.update_limit n s = Ok tt s.
Proof.
  intros Hn. unfold MS.update_limit.
  replace (n <=? 0) with true by (symmetry; apply Z.leb_le; exact Hn).
  reflexivity.
Qed.

Lemma monitored_same_limit_noop (s : MS.state) :
  MS._lock s = false -> 0 < MS._max_value s ->
  MS.update_limit (MS._max_value s) s = Ok tt s.
Proof.
  intros Hl Hp. unfold MS.update_limit.
  replace (MS._max_value s <=? 0) with false
    by (symmetry; apply Z.leb_gt; exact Hp).
  unfold MS.with_lock, bind, get. rewrite Hl. cbn [MS._max_value MS.set_lock].
  rewrite Z.eqb_refl. unfold ret. destruct s; simpl in *; subst; reflexivity.
Qed.

(** C5.  The code at a non-positive limit: [update_limit(0)] of
    [CancellableMonitoredSemaphore] raises [ValueError] into its caller and
    leaves the state as it was, while [update_limit(0)] of
    [MonitoredSemaphore] catches its own [ValueError] and returns normally
    (with the state unchanged). *)
Theorem C5_monitored_update_limit_hides_invalid_limit :
  CMS.update_limit 0 (CMS.__init__ 5) = Raise ValueError (CMS.__init__ 5) /\
  MS.update_limit 0 (MS.__init__ 5) = Ok tt (MS.__init__ 5).
Proof. split; reflexivity. Qed.

End Limits.

(** ** The two resize strategies *)
Module Strategies.

(** C6.  The same operations (two acquires at limit 2, a resize to 1, a
    third acquire) end with two holders and [available_permits = 0] in
    [CancellableMonitoredSemaphore], where the third caller waits, and with
    three holders at limit 1 and [available_permits = -2] in
    [MonitoredSemaphore], whose fresh semaphore admits the third caller. *)
Theorem C6_resize_strategies_are_not_equivalent :
  exists (ops : list op) (c : CMS.state) (m : MS.state),
    CMS.exec_all ops (CMS.__init__ 2) = Some c /\
    MS.exec_all ops (MS.__init__ 2) = Some m /\
    CMS._max_value c = 1 /\ MS._max_value m = 1 /\
    CMS.holders c = 2%nat /\ MS.holders m = 3%nat /\
    fst (CMS.active_count c) = 2 /\ fst (MS.active_count m) = 3 /\
    fst (CMS.available_permits c) = 0 /\
    fst (MS.available_permits m) = -2.
Proof.
  exists [Acquire; Acquire; SetLimit 1; Acquire].
  exists {| CMS._max_value := 1; CMS._active_count := 2; CMS._available := 0;
            CMS._waiters := [2%nat]; CMS._lock := false;
            CMS.tasks := [CMS.Holding; CMS.Holding;
                          CMS.AwaitWaiter CMS.Pending false];
            CMS.release_tasks := 0; CMS.history := [CMS.Enqueued 2] |}.
  exists {| MS.heap := [MS.Semaphore 0 []; MS.Semaphore 0 []];
            MS._semaphore := 1; MS._old_semaphores := [0%nat];
            MS._max_value := 1; MS._active_count := 3; MS._lock := false;
            MS.tasks := [MS.Holding; MS.Holding; MS.Holding] |}.
  split; [reflexivity|]. split; [reflexivity|].
  repeat split.
Qed.

End Strategies.

(** ** The fetched limit *)
Module Policy.

Lemma fetch_ignores_other_values :
  _fetch_limit_from_url (GetReturns 200 (Some (PDict [("limit", PStr "5")])))
    = None /\
  _fetch_limit_from_url (GetReturns 200 (Some (PDict [("limit", PFloat 5)])))
    = None /\
  _fetch_limit_from_url (GetReturns 200 (Some (PDict [("limit", PBool false)])))
    = None /\
  _fetch_limit_from_url (GetReturns 200 (Some (PDict [("limit", PInt 0)])))
    = None /\
  _fetch_limit_from_url (GetReturns 200 (Some (PDict []))) = None /\
  _fetch_limit_from_url (GetReturns 200 (Some (PList [PInt 5]))) = None /\
  _fetch_limit_from_url (GetReturns 200 None) = None /\
  _fetch_limit_from_url (GetReturns 500 (Some (PDict [("limit", PInt 5)])))
    = None /\
  _fetch_limit_from_url GetRaises = None /\
  _fetch_limit_from_url (GetReturns 200 (Some (PDict [("limit", PInt 5)])))
    = Some (PInt 5).
Proof. repeat split. Qed.

(** C10.  A 200 response whose body is [{"limit": true}] is accepted:
    [_fetch_limit_from_url] returns [True], because [isinstance(True, int)]
    holds and [True > 0].  The update loop then hands it to
    [update_limit], which, when the hand-over completes and on a semaphore
    whose limit is not 1, installs it as the limit, with the value 1. *)
Theorem C10_fetch_accepts_json_true :
  let r := GetReturns 200 (Some (PDict [("limit", PBool true)])) in
  _fetch_limit_from_url r = Some (PBool true) /\
  int_value (PBool true) = 1 /\
  (forall s : CMS.state,
     CMS._lock s = false -> CMS._max_value s <> 1 ->
     exists s',
       CMS._update_loop_tick r true Completed s = Ok tt s' /\
       CMS._max_value s' = 1) /\
  (forall s : MS.state,
     MS._lock s = false -> MS._max_value s <> 1 ->
     exists s',
       MS._update_loop_tick r true Completed s = Ok tt s' /\
       MS._max_value s' = 1 /\
       MS.heap s' !! MS._semaphore s' = Some (MS.Semaphore 1 [])).
Proof.
  cbv zeta. split; [reflexivity|]. split; [reflexivity|]. split.
  - intros s Hl Hm. unfold CMS._update_loop_tick.
    change (_fetch_limit_from_url _) with (Some (PBool true)).
    cbn [int_value].
    destruct (Z.lt_trichotomy 1 (CMS._max_value s)) as [Hlt|[Heq|Hgt]].
    + rewrite CMS_ops.update_limit_shrink by (assumption || lia).
      eexists. split; reflexivity.
    + congruence.
    + rewrite CMS_ops.update_limit_grow by (assumption || lia).
      destruct (1 - CMS._active_count s <? 0); eexists; split; reflexivity.
  - intros s Hl Hm. unfold MS._update_loop_tick.
    change (_fetch_limit_from_url _) with (Some (PBool true)).
    cbn [int_value]. unfold MS.update_limit.
    change (1 <=? 0) with false. cbv iota.
    unfold MS.with_lock, bind, get. rewrite Hl.
    cbn [MS._max_value MS.set_lock].
    replace (1 =? MS._max_value s) with false
      by (symmetry; apply Z.eqb_neq; congruence).
    eexists. split; [reflexivity|]. split; [reflexivity|].
    cbn. rewrite lookup_app_r by lia. rewrite Nat.sub_diag. reflexivity.
Qed.

Lemma C10_witness :
  exists s',
    CMS._update_loop_tick
      (GetReturns 200 (Some (PDict [("limit", PBool true)]))) true Completed
      (CMS.__init__ 5) = Ok tt s' /\
    CMS._max_value s' = 1.
Proof.
  destruct C10_fetch_accepts_json_true as (_ & _ & H & _).
  exact (H (CMS.__init__ 5) eq_refl ltac:(discriminate)).
Defined.

End Policy.

(** ** Further properties of [CancellableMonitoredSemaphore]: the counters *)
Module CMS_counters.
Import CMS CMS_ops CMS_lists CMS_queue.

Lemma holders_mark_all (f : fut_state) (ws : list nat) (tk : list task) :
  count is_holding (snd (mark_all f ws tk)) = count is_holding tk.
Proof.
  revert tk. induction ws as [|w ws IH]; intros tk; simpl; [reflexivity|].
  destruct (pending tk w); simpl; rewrite IH; [|reflexivity].
  apply CMS_fixed.holders_mark.
Qed.

Lemma mark_all_fst_length (f : fut_state) (ws : list nat) (tk : list task) :
  (length (fst (mark_all f ws tk)) <= length ws)%nat.
Proof. apply sublist_length, mark_all_sublist. Qed.

Lemma cancels_app (h1 h2 : list signal) :
  cancels (h1 ++ h2) = cancels h1 ++ cancels h2.
Proof. apply omap_app. Qed.

Lemma cancels_woke (l : list nat) : cancels (map Woke l) = [].
Proof. induction l as [|x l IH]; simpl; [reflexivity|exact IH]. Qed.

Lemma update_limit_frame (n : Z) (s s' : state) :
  _lock s = false ->
  step (EUpdateLimit n) s = Some s' ->
  _lock s' = false /\
  _active_count s' = _active_count s /\
  holders s' = holders s /\
  release_tasks s' = release_tasks s /\
  (n <= _max_value s -> wakes (history s') = wakes (history s)) /\
  (_max_value s <= n -> cancels (history s') = cancels (history s)) /\
  (n <= 0 -> s' = s) /\
  (0 < n -> _max_value s' = n).
Proof.
  intros Hl Hs. cbn [step] in Hs. unfold holders.
  destruct (Z_le_gt_dec n 0) as [Hn|Hn].
  { rewrite update_limit_nonpositive in Hs by exact Hn.
    injection Hs as <-. repeat split; auto; lia. }
  destruct (Z.lt_trichotomy n (_max_value s)) as [Hlt|[Heq|Hgt]].
  - rewrite update_limit_shrink in Hs by (assumption || lia).
    injection Hs as <-.
    cbn [_lock _active_count tasks release_tasks history _max_value
         set_history set_tasks set_waiters set_available set_max_value].
    rewrite holders_mark_all, wakes_app, wakes_cancel, app_nil_r.
    repeat split; auto; lia.
  - rewrite update_limit_same in Hs by (assumption || lia).
    injection Hs as <-. repeat split; auto; lia.
  - rewrite update_limit_grow in Hs by (assumption || lia).
    destruct (n - _active_count s <? 0); injection Hs as <-;
      cbn [_lock _active_count tasks release_tasks history _max_value
           set_history set_tasks set_waiters set_available set_max_value].
    + repeat split; auto; lia.
    + rewrite holders_mark_all, cancels_app, cancels_woke, app_nil_r.
      repeat split; auto; lia.
Qed.

(** What [update_limit] leaves alone, whatever its argument: the active
    count, the holders and the releases still to run; a call that does not
    raise the limit wakes no waiter, a call that does not lower it cancels
    none; a rejected call changes nothing, an accepted one installs the
    limit. *)
Theorem update_limit_keeps_the_holders (n : Z) (s s' : state) :
  _lock s = false ->
  step (EUpdateLimit n) s = Some s' ->
  _lock s' = false /\
  _active_count s' = _active_count s /\
  holders s' = holders s /\
  release_tasks s' = release_tasks s /\
  (n <= _max_value s -> wakes (history s') = wakes (history s)) /\
  (_max_value s <= n -> cancels (history s') = cancels (history s)) /\
  (n <= 0 -> s' = s) /\
  (0 < n -> _max_value s' = n).
Proof. apply update_limit_frame. Qed.

Lemma update_limit_keeps_the_holders_witness :
  holders
    {| _max_value := 1; _active_count := 2; _available := 0;
       _waiters := []; _lock := false;
       tasks := [Holding; Holding; AwaitWaiter FutCancelled false];
       release_tasks := 0; history := [Enqueued 2; Cancel 2] |} =
  holders
    {| _max_value := 2; _active_count := 2; _available := 0;
       _waiters := [2%nat]; _lock := false;
       tasks := [Holding; Holding; AwaitWaiter Pending false];
       release_tasks := 0; history := [Enqueued 2] |}.
Proof.
  apply (update_limit_keeps_the_holders 1
           {| _max_value := 2; _active_count := 2; _available := 0;
              _waiters := [2%nat]; _lock := false;
              tasks := [Holding; Holding; AwaitWaiter Pending false];
              release_tasks := 0; history := [Enqueued 2] |}
           {| _max_value := 1; _active_count := 2; _available := 0;
              _waiters := []; _lock := false;
              tasks := [Holding; Holding; AwaitWaiter FutCancelled false];
              release_tasks := 0; history := [Enqueued 2; Cancel 2] |}
           eq_refl eq_refl).
Defined.

Lemma inv_counts_init (L : Z) : 0 <= L -> inv_counts (__init__ L).
Proof. intros HL. unfold inv_counts, holders. simpl. lia. Qed.

Lemma inv_counts_step (e : event) (s s' : state) :
  inv_counts s -> step e s = Some s' -> inv_counts s'.
Proof.
  intros (Hl & Hv & Hh) Hs.
  destruct (is_update e) eqn:Hu.
  - destruct e as [|t|t|t| |n]; try discriminate.
    pose proof (update_limit_frame n s s' Hl Hs)
      as (Hl' & Ha & Hh' & Hr & _).
    unfold inv_counts. split; [exact Hl'|]. split; [|lia].
    cbn [step] in Hs.
    destruct (Z_le_gt_dec n 0) as [Hn|Hn].
    { rewrite update_limit_nonpositive in Hs by exact Hn.
      injection Hs as <-. exact Hv. }
    destruct (Z.lt_trichotomy n (_max_value s)) as [Hlt|[Heq|Hgt]].
    + rewrite update_limit_shrink in Hs by (assumption || lia).
      injection Hs as <-. cbn [_available set_history set_tasks set_waiters
                                 set_available]. lia.
    + rewrite update_limit_same in Hs by (assumption || lia).
      injection Hs as <-. exact Hv.
    + rewrite update_limit_grow in Hs by (assumption || lia).
      destruct (n - _active_count s <? 0) eqn:E; injection Hs as <-;
        cbn [_available set_history set_tasks set_waiters set_available];
        [lia|].
      apply Z.ltb_ge in E.
      pose proof (mark_all_fst_length Finished
                    (take (Z.to_nat (Z.of_nat (length (_waiters s))
                                     `min` (n - _active_count s)))
                       (_waiters s)) (tasks s)) as Hlen.
      rewrite length_take in Hlen. lia.
  - unfold inv_counts, holders in *.
    destruct e as [|t|t|t| |n]; simpl in Hs; try discriminate.
    + destruct (Z_lt_le_dec 0 (_available s)) as [Hpos|Hnp].
      * rewrite acquire_fast in Hs by assumption. injection Hs as <-. simpl.
        rewrite !count_app. simpl. repeat split; try assumption; lia.
      * rewrite acquire_slow in Hs by assumption. injection Hs as <-. simpl.
        rewrite !count_app. simpl. repeat split; try assumption; lia.
    + destruct (tasks s !! t) as [[f mc| | |]|] eqn:Ht;
        try (unfold acquire_resume in Hs; rewrite Ht in Hs; discriminate).
      destruct f.
      * unfold acquire_resume in Hs. rewrite Ht in Hs. discriminate.
      * destruct mc.
        -- rewrite (resume_cancelled t s Finished true Ht) in Hs by auto.
           injection Hs as <-. simpl.
           pose proof (count_insert is_holding _ t _ Failed Ht) as C1.
           simpl in C1. repeat split; try assumption; lia.
        -- rewrite (resume_granted t s Hl Ht) in Hs. injection Hs as <-.
           simpl.
           pose proof (count_insert is_holding _ t _ Holding Ht) as C1.
           simpl in C1. repeat split; try assumption; lia.
      * rewrite (resume_cancelled t s FutCancelled mc Ht) in Hs by auto.
        injection Hs as <-. simpl.
        pose proof (count_insert is_holding _ t _ Failed Ht) as C1.
        simpl in C1. repeat split; try assumption; lia.
    + destruct (tasks s !! t) as [[f mc| | |]|] eqn:Ht; try discriminate.
      unfold task_cancel, cancel in Hs. rewrite Ht in Hs.
      destruct f; simpl in Hs; injection Hs as <-; simpl.
      * pose proof (count_insert is_holding _ t _
                      (AwaitWaiter FutCancelled mc) Ht) as C1.
        simpl in C1. repeat split; try assumption; lia.
      * pose proof (count_insert is_holding _ t _
                      (AwaitWaiter Finished true) Ht) as C1.
        simpl in C1. repeat split; try assumption; lia.
      * pose proof (count_insert is_holding _ t _
                      (AwaitWaiter FutCancelled true) Ht) as C1.
        simpl in C1. repeat split; try assumption; lia.
    + destruct (tasks s !! t) as [[f mc| | |]|] eqn:Ht; try discriminate.
      simpl in Hs. injection Hs as <-. simpl.
      pose proof (count_insert is_holding _ t _ Released Ht) as C1.
      simpl in C1. repeat split; try assumption; lia.
    + destruct (release_tasks s) as [|n] eqn:Hr; [discriminate|].
      rewrite release_async_spec in Hs by (simpl; assumption). simpl in Hs.
      destruct (first_pending (tasks s) (_waiters s)) as [[w rest]|] eqn:Hp;
        injection Hs as <-; simpl.
      * rewrite CMS_fixed.holders_mark. repeat split; try assumption; lia.
      * repeat split; try assumption; lia.
Qed.

Lemma inv_counts_run (es : list event) (s s' : state) :
  inv_counts s -> run es s = Some s' -> inv_counts s'.
Proof.
  revert s. induction es as [|e es IH]; intros s Hi Hr; simpl in *.
  - injection Hr as <-. exact Hi.
  - destruct (step e s) as [s1|] eqn:Hs; [|discriminate].
    apply (IH s1); [eapply inv_counts_step; eassumption|exact Hr].
Qed.

(** In every execution, resizes and cancellations included, from an initial
    limit [L >= 0]: [_available] is never negative, and [_active_count] is
    the number of holders plus the number of releases that were requested
    and have not run yet, so it is never negative either. *)
Theorem counters_never_negative (L : Z) (es : list event) (s : state) :
  0 <= L ->
  run es (__init__ L) = Some s ->
  0 <= _available s /\
  _active_count s = Z.of_nat (holders s) + Z.of_nat (release_tasks s) /\
  0 <= _active_count s.
Proof.
  intros HL Hr.
  destruct (inv_counts_run es _ s (inv_counts_init L HL) Hr) as (_ & Hv & Hh).
  lia.
Qed.

Lemma counters_never_negative_witness :
  0 <= _available
         {| _max_value := 1; _active_count := 1; _available := 1;
            _waiters := []; _lock := false; tasks := [Released; Holding];
            release_tasks := 0; history := [] |}.
Proof.
  apply (counters_never_negative 2
           [EAcquire; EAcquire; EUpdateLimit 1; ERelease 0%nat; ERunRelease]
           {| _max_value := 1; _active_count := 1; _available := 1;
              _waiters := []; _lock := false; tasks := [Released; Holding];
              release_tasks := 0; history := [] |}).
  - lia.
  - reflexivity.
Defined.

(** A second [update_limit] with the same argument changes nothing. *)
Theorem update_limit_idempotent (n : Z) (s s1 : state) :
  _lock s = false ->
  update_limit n s = Ok tt s1 ->
  update_limit n s1 = Ok tt s1.
Proof.
  intros Hl H1.
  destruct (Z_le_gt_dec n 0) as [Hn|Hn].
  { rewrite update_limit_nonpositive in H1 by exact Hn. discriminate. }
  assert (Hs : step (EUpdateLimit n) s = Some s1)
    by (cbn [step]; rewrite H1; reflexivity).
  pose proof (update_limit_frame n s s1 Hl Hs)
    as (Hl1 & _ & _ & _ & _ & _ & _ & Hm).
  apply update_limit_same; [exact Hl1|lia|]. symmetry. apply Hm. lia.
Qed.

Lemma update_limit_idempotent_witness :
  update_limit 1
    {| _max_value := 1; _active_count := 2; _available := 0;
       _waiters := []; _lock := false;
       tasks := [Holding; Holding; AwaitWaiter FutCancelled false];
       release_tasks := 0; history := [Enqueued 2; Cancel 2] |} =
  Ok tt
    {| _max_value := 1; _active_count := 2; _available := 0;
       _waiters := []; _lock := false;
       tasks := [Holding; Holding; AwaitWaiter FutCancelled false];
       release_tasks := 0; history := [Enqueued 2; Cancel 2] |}.
Proof.
  apply (update_limit_idempotent 1
           {| _max_value := 2; _active_count := 2; _available := 0;
              _waiters := [2%nat]; _lock := false;
              tasks := [Holding; Holding; AwaitWaiter Pending false];
              release_tasks := 0; history := [Enqueued 2] |}).
  - reflexivity.
  - reflexivity.
Defined.

End CMS_counters.

(** ** Further properties of [CancellableMonitoredSemaphore]: the permits *)
Module CMS_permits.
Import CMS CMS_ops CMS_lists CMS_queue CMS_fixed.

Lemma lookup_snoc_await (tk : list task) (k : task) (t : nat)
      (f : fut_state) (mc : bool) :
  (tk ++ [k]) !! t = Some (AwaitWaiter f mc) ->
  tk !! t = Some (AwaitWaiter f mc) \/ k = AwaitWaiter f mc.
Proof.
  intros H. destruct (decide (t < length tk)%nat) as [Hlt|Hge].
  - left. rewrite lookup_app_l in H by exact Hlt. exact H.
  - right. rewrite lookup_app_r in H by lia.
    destruct (t - length tk)%nat; simpl in H; [congruence|discriminate].
Qed.

Lemma lookup_insert_await (tk : list task) (i t : nat) (k : task)
      (f : fut_state) (mc : bool) :
  <[i := k]> tk !! t = Some (AwaitWaiter f mc) ->
  tk !! t = Some (AwaitWaiter f mc) \/ k = AwaitWaiter f mc.
Proof.
  intros H. destruct (decide (i = t)) as [->|Hne].
  - destruct (decide (t < length tk)%nat) as [Hlt|Hge].
    + rewrite list_lookup_insert_eq in H by exact Hlt. right. congruence.
    + rewrite list_insert_ge in H by lia. left. exact H.
  - rewrite list_lookup_insert_ne in H by exact Hne. left. exact H.
Qed.

Lemma inv_exact_init (L : Z) : inv_exact L (__init__ L).
Proof.
  unfold inv_exact, permits, holders, granted. simpl.
  repeat split; try lia; intros; discriminate.
Qed.

Lemma inv_exact_step (L : Z) (e : event) (s s' : state) :
  inv_exact L s -> is_update e = false -> late_cancel e s = false ->
  step e s = Some s' -> inv_exact L s'.
Proof.
  intros (Hl & Hm & Hh & Hsum & HP & HF) Hu Hlc Hs.
  unfold inv_exact, permits, holders, granted in *.
  destruct e as [|t|t|t| |n]; simpl in Hs; try discriminate.
  - destruct (Z_lt_le_dec 0 (_available s)) as [Hpos|Hnp].
    + rewrite acquire_fast in Hs by assumption. injection Hs as <-. simpl.
      rewrite !count_app. simpl.
      split; [exact Hl|]. split; [exact Hm|]. split; [lia|]. split; [lia|].
      split; intros t mc Ht; apply lookup_snoc_await in Ht as [Ht|Ht];
        try discriminate; eauto.
    + rewrite acquire_slow in Hs by assumption. injection Hs as <-. simpl.
      rewrite !count_app. simpl.
      split; [exact Hl|]. split; [exact Hm|]. split; [lia|]. split; [lia|].
      split; intros t mc Ht; apply lookup_snoc_await in Ht as [Ht|Ht];
        try discriminate; eauto.
      injection Ht as <-. reflexivity.
  - destruct (tasks s !! t) as [[f mc| | |]|] eqn:Ht;
      try (unfold acquire_resume in Hs; rewrite Ht in Hs; discriminate).
    destruct f.
    + unfold acquire_resume in Hs. rewrite Ht in Hs. discriminate.
    + rewrite (HF t mc Ht) in Ht.
      rewrite (resume_granted t s Hl Ht) in Hs. injection Hs as <-. simpl.
      pose proof (count_insert is_holding _ t _ Holding Ht) as C1.
      pose proof (count_insert is_granted _ t _ Holding Ht) as C2.
      simpl in C1, C2.
      split; [exact Hl|]. split; [exact Hm|]. split; [lia|]. split; [lia|].
      split; intros t0 mc0 Ht0; apply lookup_insert_await in Ht0 as [Ht0|Ht0];
        try discriminate; eauto.
    + rewrite (resume_cancelled t s FutCancelled mc Ht) in Hs by auto.
      injection Hs as <-. simpl.
      pose proof (count_insert is_holding _ t _ Failed Ht) as C1.
      pose proof (count_insert is_granted _ t _ Failed Ht) as C2.
      simpl in C1, C2.
      split; [exact Hl|]. split; [exact Hm|]. split; [lia|]. split; [lia|].
      split; intros t0 mc0 Ht0; apply lookup_insert_await in Ht0 as [Ht0|Ht0];
        try discriminate; eauto.
  - simpl in Hlc.
    destruct (tasks s !! t) as [[f mc| | |]|] eqn:Ht; try discriminate.
    unfold task_cancel, cancel in Hs. rewrite Ht in Hs.
    destruct f; try discriminate; simpl in Hs; injection Hs as <-; simpl.
    + pose proof (count_insert is_holding _ t _
                    (AwaitWaiter FutCancelled mc) Ht) as C1.
      pose proof (count_insert is_granted _ t _
                    (AwaitWaiter FutCancelled mc) Ht) as C2.
      simpl in C1, C2.
      split; [exact Hl|]. split; [exact Hm|]. split; [lia|]. split; [lia|].
      split; intros t0 mc0 Ht0; apply lookup_insert_await in Ht0 as [Ht0|Ht0];
        try discriminate; eauto.
    + pose proof (count_insert is_holding _ t _
                    (AwaitWaiter FutCancelled true) Ht) as C1.
      pose proof (count_insert is_granted _ t _
                    (AwaitWaiter FutCancelled true) Ht) as C2.
      simpl in C1, C2.
      split; [exact Hl|]. split; [exact Hm|]. split; [lia|]. split; [lia|].
      split; intros t0 mc0 Ht0; apply lookup_insert_await in Ht0 as [Ht0|Ht0];
        try discriminate; eauto.
  - destruct (tasks s !! t) as [[f mc| | |]|] eqn:Ht; try discriminate.
    simpl in Hs. injection Hs as <-. simpl.
    pose proof (count_insert is_holding _ t _ Released Ht) as C1.
    pose proof (count_insert is_granted _ t _ Released Ht) as C2.
    simpl in C1, C2.
    split; [exact Hl|]. split; [exact Hm|]. split; [lia|]. split; [lia|].
    split; intros t0 mc0 Ht0; apply lookup_insert_await in Ht0 as [Ht0|Ht0];
      try discriminate; eauto.
  - destruct (release_tasks s) as [|n] eqn:Hr; [discriminate|].
    rewrite release_async_spec in Hs by (simpl; assumption). simpl in Hs.
    destruct (first_pending (tasks s) (_waiters s)) as [[w rest]|] eqn:Hp;
      injection Hs as <-; simpl.
    + apply first_pending_some in Hp as (pre & _ & _ & Hw).
      rewrite holders_mark, (granted_mark_finished _ _ Hw).
      pose proof Hw as Hw'. apply pending_lookup in Hw' as [mc Hw'].
      rewrite <- (insert_mark Finished _ _ _ Hw').
      split; [exact Hl|]. split; [exact Hm|]. split; [lia|]. split; [lia|].
      split; intros t0 mc0 Ht0; apply lookup_insert_await in Ht0 as [Ht0|Ht0];
        try discriminate; eauto.
      injection Ht0 as <-. eauto.
    + split; [exact Hl|]. split; [exact Hm|]. split; [lia|]. split; [lia|].
      split; assumption.
Qed.

Lemma inv_exact_run (L : Z) (es : list event) (s s' : state) :
  inv_exact L s -> no_update es = true -> no_late_cancel es s = true ->
  run es s = Some s' -> inv_exact L s'.
Proof.
  revert s. induction es as [|e es IH]; intros s Hi Hn Hc Hr; simpl in *.
  - injection Hr as <-. exact Hi.
  - apply andb_true_iff in Hn as [He Hn]. apply negb_true_iff in He.
    apply andb_true_iff in Hc as [Hc1 Hc2]. apply negb_true_iff in Hc1.
    destruct (step e s) as [s1|] eqn:Hs; [|discriminate].
    apply (IH s1); [eapply inv_exact_step; eassumption|exact Hn|exact Hc2
                   |exact Hr].
Qed.

(** At a fixed limit [L], as long as no task is cancelled after its waiter
    was given a result, no permit is ever lost or created: the active count,
    the free permits and the waiters woken but not yet resumed add up to
    [L].  Cancelling waiters that are still pending is harmless. *)
Theorem permits_conserved_without_late_cancel
        (L : Z) (es : list event) (s : state) :
  no_update es = true ->
  no_late_cancel es (__init__ L) = true ->
  run es (__init__ L) = Some s ->
  _active_count s + _available s + Z.of_nat (granted s) = L.
Proof.
  intros Hn Hc Hr.
  destruct (inv_exact_run L es _ s (inv_exact_init L) Hn Hc Hr)
    as (_ & _ & _ & Hsum & _).
  exact Hsum.
Qed.

Lemma permits_conserved_without_late_cancel_witness :
  _active_count
    {| _max_value := 1; _active_count := 0; _available := 1;
       _waiters := []; _lock := false; tasks := [Released; Failed];
       release_tasks := 0; history := [Enqueued 1; Cancel 1] |} +
  _available
    {| _max_value := 1; _active_count := 0; _available := 1;
       _waiters := []; _lock := false; tasks := [Released; Failed];
       release_tasks := 0; history := [Enqueued 1; Cancel 1] |} +
  Z.of_nat
    (granted
       {| _max_value := 1; _active_count := 0; _available := 1;
          _waiters := []; _lock := false; tasks := [Released; Failed];
          release_tasks := 0; history := [Enqueued 1; Cancel 1] |}) = 1.
Proof.
  apply (permits_conserved_without_late_cancel 1
           [EAcquire; EAcquire; ECancel 1%nat; ERelease 0%nat; ERunRelease;
            EResume 1%nat]).
  - reflexivity.
  - reflexivity.
  - reflexivity.
Defined.

(** Cancelling a waiter that is still pending and letting it run:
    [acquire()] raises [CancelledError], the waiter leaves the queue, and
    the counters, the limit and the permits are what they were.  The lock is
    not needed on this path. *)
Theorem cancel_pending_waiter_conserves (t : nat) (mc : bool) (s : state) :
  tasks s !! t = Some (AwaitWaiter Pending mc) ->
  exists s1 s2,
    step (ECancel t) s = Some s1 /\
    acquire_resume t s1 = Raise CancelledError s2 /\
    run [ECancel t; EResume t] s = Some s2 /\
    tasks s2 = <[t := Failed]> (tasks s) /\
    _waiters s2 = remove_first t (_waiters s) /\
    _active_count s2 = _active_count s /\
    _available s2 = _available s /\
    _max_value s2 = _max_value s /\
    release_tasks s2 = release_tasks s /\
    history s2 = history s ++ [Cancel t] /\
    permits s2 = permits s.
Proof.
  intros Ht.
  assert (Hlen : (t < length (tasks s))%nat) by (eapply lookup_lt_Some, Ht).
  set (s1 := set_history (history s ++ [Cancel t])
               (set_tasks (<[t := AwaitWaiter FutCancelled mc]> (tasks s)) s)).
  assert (E1 : step (ECancel t) s = Some s1).
  { cbn [step]. rewrite Ht. unfold task_cancel, cancel. rewrite Ht.
    reflexivity. }
  assert (Ht1 : tasks s1 !! t = Some (AwaitWaiter FutCancelled mc)).
  { unfold s1. cbn [tasks set_history set_tasks].
    apply list_lookup_insert_eq, Hlen. }
  pose proof (resume_cancelled t s1 FutCancelled mc Ht1 (or_introl eq_refl))
    as E2.
  exists s1. eexists. split; [exact E1|]. split; [exact E2|].
  split.
  { cbn [run]. rewrite E1. cbn [step]. rewrite E2. reflexivity. }
  unfold s1, permits, granted.
  cbn [tasks _waiters _active_count _available _max_value release_tasks
       history set_history set_tasks set_waiters].
  rewrite list_insert_insert_eq.
  split; [reflexivity|]. split; [reflexivity|]. split; [reflexivity|].
  split; [reflexivity|]. split; [reflexivity|]. split; [reflexivity|].
  split; [reflexivity|].
  pose proof (count_insert is_granted (tasks s) t _ Failed Ht) as C.
  simpl in C. lia.
Qed.

Lemma cancel_pending_waiter_conserves_witness :
  exists s2,
    run [ECancel 1%nat; EResume 1%nat]
      {| _max_value := 1; _active_count := 1; _available := 0;
         _waiters := [1%nat]; _lock := false;
         tasks := [Holding; AwaitWaiter Pending false];
         release_tasks := 0; history := [Enqueued 1] |} = Some s2 /\
    _active_count s2 = 1 /\ _available s2 = 0.
Proof.
  destruct (cancel_pending_waiter_conserves 1 false
              {| _max_value := 1; _active_count := 1; _available := 0;
                 _waiters := [1%nat]; _lock := false;
                 tasks := [Holding; AwaitWaiter Pending false];
                 release_tasks := 0; history := [Enqueued 1] |} eq_refl)
    as (s1 & s2 & _ & _ & E & _ & _ & Ea & Ev & _).
  exists s2. split; [exact E|]. split; [exact Ea|exact Ev].
Defined.

End CMS_permits.

(** ** Further properties of [CancellableMonitoredSemaphore]: scenarios *)
Module CMS_compose.
Import CMS CMS_ops CMS_lists CMS_queue.

Lemma pending_snoc (tk : list task) (k : task) (w : nat) :
  (forall mc, k <> AwaitWaiter Pending mc) ->
  pending (tk ++ [k]) w = pending tk w.
Proof.
  intros Hk. unfold pending.
  destruct (decide (w < length tk)%nat) as [Hlt|Hge].
  - rewrite lookup_app_l by exact Hlt. reflexivity.
  - rewrite lookup_app_r by lia. rewrite (lookup_ge_None_2 tk w) by lia.
    destruct (w - length tk)%nat; simpl; [|reflexivity].
    destruct k as [[] mc| | |]; try reflexivity. exfalso. eapply Hk.
    reflexivity.
Qed.

Lemma first_pending_ext (tk1 tk2 : list task) (ws : list nat) :
  (forall w, pending tk1 w = pending tk2 w) ->
  first_pending tk1 ws = first_pending tk2 ws.
Proof.
  intros H. induction ws as [|w ws IH]; simpl; [reflexivity|].
  rewrite H, IH. reflexivity.
Qed.

Lemma mark_all_keeps_holding (f : fut_state) (ws : list nat) (tk : list task)
      (t : nat) (k : task) :
  tk !! t = Some k -> (forall mc, k <> AwaitWaiter Pending mc) ->
  snd (mark_all f ws tk) !! t = Some k.
Proof.
  intros Ht Hk. destruct (decide (t ∈ ws)) as [Hin|Hout].
  - rewrite mark_all_lookup_in by exact Hin. rewrite Ht. simpl. f_equal.
    destruct k as [[] mc| | |]; try reflexivity. exfalso. eapply Hk.
    reflexivity.
  - rewrite mark_all_lookup_out by exact Hout. exact Ht.
Qed.

(** Round trip.  When a permit is free and no pending waiter is queued, an
    [acquire()] followed by the [release()] of the same caller (and the run
    of its [_release_async()]) restores the active count and the free
    permits; nobody is woken; waiters that were already done are dropped
    from the queue. *)
Theorem acquire_release_round_trip (s : state) :
  _lock s = false ->
  0 < _available s ->
  first_pending (tasks s) (_waiters s) = None ->
  exists s',
    run [EAcquire; ERelease (length (tasks s)); ERunRelease] s = Some s' /\
    _active_count s' = _active_count s /\
    _available s' = _available s /\
    _max_value s' = _max_value s /\
    release_tasks s' = release_tasks s /\
    history s' = history s /\
    tasks s' = tasks s ++ [Released] /\
    _waiters s' = [].
Proof.
  intros Hl Hv Hf.
  cbn [run step].
  rewrite acquire_fast by assumption. cbn [after].
  cbn [tasks set_tasks set_active_count set_available].
  rewrite list_lookup_middle by reflexivity.
  unfold release, bind, modify.
  cbn [after release_tasks set_release_tasks set_tasks set_active_count
       set_available].
  rewrite release_async_spec by exact Hl.
  cbn [tasks _waiters set_release_tasks set_tasks set_active_count
       set_available].
  rewrite insert_app_r_alt by lia. rewrite Nat.sub_diag. cbn [insert list_insert].
  rewrite (first_pending_ext (tasks s ++ [Released]) (tasks s))
    by (intros w; apply pending_snoc; discriminate).
  rewrite Hf. cbn [after].
  eexists. split; [reflexivity|].
  cbn [_active_count _available _max_value release_tasks history tasks
       _waiters set_release_tasks set_tasks set_active_count set_available
       set_waiters].
  repeat split; lia.
Qed.

Lemma acquire_release_round_trip_witness :
  exists s',
    run [EAcquire; ERelease 1%nat; ERunRelease]
      {| _max_value := 2; _active_count := 1; _available := 1;
         _waiters := []; _lock := false; tasks := [Holding];
         release_tasks := 0; history := [] |} = Some s' /\
    _active_count s' = 1 /\ _available s' = 1.
Proof.
  destruct (acquire_release_round_trip
              {| _max_value := 2; _active_count := 1; _available := 1;
                 _waiters := []; _lock := false; tasks := [Holding];
                 release_tasks := 0; history := [] |}
              eq_refl ltac:(reflexivity) eq_refl)
    as (s' & E & Ea & Ev & _).
  exists s'. split; [exact E|]. split; [exact Ea|exact Ev].
Defined.

(** After a shrink below the active count, the first release already admits
    a new caller.  From a state with [active > n] in which [t] holds a
    permit: [update_limit(n)] empties the queue and sets [_available] to 0;
    the release of [t] finds no waiter and adds one to [_available]; the
    next [acquire()] takes the fast path.  The active count is back at its
    old value, above the new limit. *)
Theorem release_after_shrink_admits_a_caller (n : Z) (t : nat) (s : state) :
  _lock s = false ->
  tasks s !! t = Some Holding ->
  0 < n -> n < _max_value s -> n < _active_count s ->
  exists s',
    run [EUpdateLimit n; ERelease t; ERunRelease; EAcquire] s = Some s' /\
    _max_value s' = n /\
    _active_count s' = _active_count s /\
    n < _active_count s' /\
    _available s' = 0 /\
    _waiters s' = [] /\
    tasks s' !! t = Some Released /\
    tasks s' !! length (tasks s) = Some Holding.
Proof.
  intros Hl Ht Hn Hlt Hover.
  assert (Hlen : (t < length (tasks s))%nat) by (eapply lookup_lt_Some, Ht).
  cbn [run step].
  rewrite update_limit_shrink by assumption. cbv zeta.
  replace (0 `max` (n - _active_count s)) with 0 by lia.
  change (Z.to_nat 0) with 0%nat. rewrite drop_0, take_0. cbn [after].
  set (tk1 := snd (mark_all FutCancelled (rev (_waiters s)) (tasks s))).
  set (h1 := history s ++
             map Cancel
               (fst (mark_all FutCancelled (rev (_waiters s)) (tasks s)))).
  assert (Ht1 : tk1 !! t = Some Holding)
    by (apply mark_all_keeps_holding; [exact Ht|discriminate]).
  assert (Hlen1 : length tk1 = length (tasks s)) by apply mark_all_length.
  cbn [tasks set_history set_tasks set_waiters set_available set_max_value].
  rewrite Ht1.
  unfold release, bind, modify.
  cbn [after release_tasks tasks set_release_tasks set_history set_tasks
       set_waiters set_available set_max_value].
  rewrite release_async_spec by exact Hl.
  cbn [first_pending after _waiters tasks set_release_tasks set_history
       set_tasks set_waiters set_available set_max_value set_active_count].
  rewrite acquire_fast;
    [|exact Hl
     |cbn [_available set_release_tasks set_history set_tasks set_waiters
           set_available set_max_value set_active_count]; lia].
  cbn [after]. eexists. split; [reflexivity|].
  cbn [_max_value _active_count _available _waiters tasks
       set_release_tasks set_history set_tasks set_waiters set_available
       set_max_value set_active_count].
  split; [reflexivity|]. split; [lia|]. split; [lia|]. split; [lia|].
  split; [reflexivity|]. split.
  - rewrite lookup_app_l by (rewrite length_insert; lia).
    apply list_lookup_insert_eq. lia.
  - rewrite <- Hlen1, <- (length_insert tk1 t Released).
    apply list_lookup_middle. reflexivity.
Qed.

Lemma release_after_shrink_admits_a_caller_witness :
  exists s',
    run [EUpdateLimit 1; ERelease 0%nat; ERunRelease; EAcquire]
      {| _max_value := 3; _active_count := 3; _available := 0;
         _waiters := []; _lock := false;
         tasks := [Holding; Holding; Holding];
         release_tasks := 0; history := [] |} = Some s' /\
    _max_value s' = 1 /\ _active_count s' = 3.
Proof.
  destruct (release_after_shrink_admits_a_caller 1 0%nat
              {| _max_value := 3; _active_count := 3; _available := 0;
                 _waiters := []; _lock := false;
                 tasks := [Holding; Holding; Holding];
                 release_tasks := 0; history := [] |}
              eq_refl eq_refl ltac:(reflexivity) ltac:(reflexivity)
              ltac:(reflexivity))
    as (s' & E & Em & Ea & _).
  exists s'. split; [exact E|]. split; [exact Em|exact Ea].
Defined.

End CMS_compose.

(** ** Further properties of [CancellableMonitoredSemaphore]: the queue *)
Module CMS_entries.
Import CMS CMS_ops CMS_lists CMS_queue CMS_fifo.

Lemma remove_first_elem (t w : nat) (ws : list nat) :
  NoDup ws -> w ∈ remove_first t ws -> w ∈ ws /\ w <> t.
Proof.
  induction 1 as [|x ws Hx Hnd IH]; simpl; intros Hw; [inversion Hw|].
  destruct (Nat.eqb_spec x t) as [->|Hne].
  - split; [apply list_elem_of_further, Hw|]. intros ->. contradiction.
  - apply elem_of_cons in Hw as [->|Hw].
    + split; [apply list_elem_of_here|exact Hne].
    + destruct (IH Hw) as [H1 H2].
      split; [apply list_elem_of_further, H1|exact H2].
Qed.

Lemma entries_local (ws ws' : list nat) (tk : list task) (t : nat) (k' : task) :
  (forall w, w ∈ ws ->
     exists f mc, tk !! w = Some (AwaitWaiter f mc) /\ f <> Finished) ->
  (forall w, w ∈ ws' -> w ∈ ws) ->
  (t ∈ ws' -> exists f mc, k' = AwaitWaiter f mc /\ f <> Finished) ->
  forall w, w ∈ ws' ->
    exists f mc, <[t := k']> tk !! w = Some (AwaitWaiter f mc) /\ f <> Finished.
Proof.
  intros He Hsub Ht w Hw. destruct (decide (t = w)) as [->|Hne].
  - destruct (He w (Hsub w Hw)) as (f & mc & Hlk & _).
    rewrite list_lookup_insert_eq by (eapply lookup_lt_Some, Hlk).
    destruct (Ht Hw) as (f' & mc' & -> & Hf). eauto.
  - rewrite list_lookup_insert_ne by exact Hne. apply He, Hsub, Hw.
Qed.

Lemma inv_entries_step (e : event) (s s' : state) :
  inv_queue s -> inv_entries s -> step e s = Some s' -> inv_entries s'.
Proof.
  intros [Hl HQ] He Hs. unfold inv_entries in *.
  destruct HQ as (Hsort & Hb & _).
  pose proof (sorted_nodup _ Hsort) as Hnd.
  destruct e as [|t|t|t| |n]; simpl in Hs.
  - destruct (Z_lt_le_dec 0 (_available s)) as [Hpos|Hnp].
    + rewrite acquire_fast in Hs by assumption. injection Hs as <-. simpl.
      intros w Hw. rewrite lookup_app_l by (apply Hb, Hw). apply He, Hw.
    + rewrite acquire_slow in Hs by assumption. injection Hs as <-. simpl.
      intros w Hw. apply elem_of_app in Hw as [Hw|Hw].
      * rewrite lookup_app_l by (apply Hb, Hw). apply He, Hw.
      * apply list_elem_of_singleton in Hw as ->.
        rewrite list_lookup_middle by reflexivity.
        exists Pending, false. split; [reflexivity|discriminate].
  - destruct (tasks s !! t) as [[f mc| | |]|] eqn:Ht;
      try (unfold acquire_resume in Hs; rewrite Ht in Hs; discriminate).
    assert (Hc : forall f0, f0 = FutCancelled \/ f0 = Finished /\ mc = true ->
               f = f0 ->
               forall w, w ∈ _waiters s' ->
                 exists f1 mc1, tasks s' !! w = Some (AwaitWaiter f1 mc1) /\
                                f1 <> Finished).
    { intros f0 Hf0 ->.
      rewrite (resume_cancelled t s f0 mc Ht Hf0) in Hs.
      injection Hs as <-. simpl.
      apply (entries_local (_waiters s)); [exact He| |].
      - intros w Hw. apply (remove_first_elem t w _ Hnd Hw).
      - intros Hin. destruct (remove_first_elem t t _ Hnd Hin) as [_ Hne].
        congruence. }
    destruct f.
    + unfold acquire_resume in Hs. rewrite Ht in Hs. discriminate.
    + destruct mc; [apply (Hc Finished); auto|].
      rewrite (resume_granted t s Hl Ht) in Hs. injection Hs as <-. simpl.
      apply (entries_local (_waiters s)); [exact He|auto|].
      intros Hin. destruct (He t Hin) as (f & mc & Hlk & Hf). congruence.
    + apply (Hc FutCancelled); auto.
  - destruct (tasks s !! t) as [[f mc| | |]|] eqn:Ht; try discriminate.
    unfold task_cancel, cancel in Hs. rewrite Ht in Hs.
    destruct f; simpl in Hs; injection Hs as <-; simpl;
      (apply (entries_local (_waiters s)); [exact He|auto|]); intros Hin.
    + exists FutCancelled, mc. split; [reflexivity|discriminate].
    + destruct (He t Hin) as (f & mc0 & Hlk & Hf). congruence.
    + exists FutCancelled, true. split; [reflexivity|discriminate].
  - destruct (tasks s !! t) as [[f mc| | |]|] eqn:Ht; try discriminate.
    simpl in Hs. injection Hs as <-. simpl.
    apply (entries_local (_waiters s)); [exact He|auto|].
    intros Hin. destruct (He t Hin) as (f & mc & Hlk & Hf). congruence.
  - destruct (release_tasks s) as [|n] eqn:Hr; [discriminate|].
    rewrite release_async_spec in Hs by (simpl; assumption). simpl in Hs.
    destruct (first_pending (tasks s) (_waiters s)) as [[w0 rest]|] eqn:Hp;
      injection Hs as <-; simpl.
    + apply first_pending_some in Hp as (pre & E & _ & _).
      rewrite E in Hnd, He.
      apply NoDup_app in Hnd as (_ & _ & Hnd).
      apply NoDup_cons in Hnd as [Hw0 _].
      intros w Hw.
      rewrite list_lookup_alter_ne by (intros ->; contradiction).
      apply He, elem_of_app. right. apply list_elem_of_further, Hw.
    + intros w Hw. inversion Hw.
  - destruct (Z_le_gt_dec n 0) as [Hn|Hn].
    { rewrite update_limit_nonpositive in Hs by exact Hn.
      injection Hs as <-. exact He. }
    destruct (Z.lt_trichotomy n (_max_value s)) as [Hlt|[Heq|Hgt]].
    + rewrite update_limit_shrink in Hs by (assumption || lia).
      injection Hs as <-. simpl. intros w Hw.
      rewrite <- (take_drop (Z.to_nat (0 `max` (n - _active_count s)))
                    (_waiters s)) in Hnd.
      apply NoDup_app in Hnd as (_ & Hdis & _).
      rewrite mark_all_lookup_out.
      * apply He. eapply elem_of_sublist; [exact Hw|apply sublist_take].
      * intros Hin. apply (Hdis w Hw).
        apply list_elem_of_In, in_rev, list_elem_of_In, Hin.
    + rewrite update_limit_same in Hs by (assumption || lia).
      injection Hs as <-. exact He.
    + rewrite update_limit_grow in Hs by (assumption || lia).
      destruct (n - _active_count s <? 0); injection Hs as <-; simpl;
        [exact He|].
      intros w Hw.
      rewrite <- (take_drop (Z.to_nat (Z.of_nat (length (_waiters s))
                                       `min` (n - _active_count s)))
                    (_waiters s)) in Hnd.
      apply NoDup_app in Hnd as (_ & Hdis & _).
      rewrite mark_all_lookup_out.
      * apply He. eapply elem_of_sublist; [exact Hw|apply sublist_drop].
      * intros Hin. apply (Hdis w Hin Hw).
Qed.

Lemma inv_entries_run (es : list event) (s s' : state) :
  inv_queue s -> inv_entries s -> run es s = Some s' -> inv_entries s'.
Proof.
  revert s. induction es as [|e es IH]; intros s Hq Hi Hr; simpl in *.
  - injection Hr as <-. exact Hi.
  - destruct (step e s) as [s1|] eqn:Hs; [|discriminate].
    apply (IH s1);
      [eapply inv_queue_step; eassumption
      |eapply inv_entries_step; eassumption|exact Hr].
Qed.

(** No dangling waiter.  In every execution, each entry of the queue occurs
    once and is a task still suspended in [acquire()] whose future is
    pending or cancelled: a waiter that was given a result is no longer in
    the queue, and neither is a task whose [acquire()] has returned or
    raised. *)
Theorem queue_holds_only_suspended_waiters
        (L : Z) (es : list event) (s : state) :
  run es (__init__ L) = Some s ->
  NoDup (_waiters s) /\
  (forall w, w ∈ _waiters s ->
     exists f mc, tasks s !! w = Some (AwaitWaiter f mc) /\ f <> Finished) /\
  (forall t k, tasks s !! t = Some k ->
     k = Holding \/ k = Failed \/ k = Released \/
     (exists mc, k = AwaitWaiter Finished mc) ->
     t ∉ _waiters s).
Proof.
  intros Hr.
  pose proof (reachable_inv L es s Hr) as Hq.
  assert (He : inv_entries s).
  { apply (inv_entries_run es (__init__ L) s); [apply inv_queue_init| |exact Hr].
    intros w Hw. inversion Hw. }
  destruct Hq as (_ & Hsort & _).
  split; [apply sorted_nodup, Hsort|]. split; [exact He|].
  intros t k Ht Hk Hin. destruct (He t Hin) as (f & mc & Hlk & Hf).
  rewrite Hlk in Ht. injection Ht as <-.
  destruct Hk as [Hk|[Hk|[Hk|[mc' Hk]]]]; congruence.
Qed.

Lemma queue_holds_only_suspended_waiters_witness :
  NoDup [2%nat].
Proof.
  apply (queue_holds_only_suspended_waiters 1
           [EAcquire; EAcquire; EAcquire; ERelease 0%nat; ERunRelease]
           {| _max_value := 1; _active_count := 0; _available := 0;
              _waiters := [2%nat]; _lock := false;
              tasks := [Released; AwaitWaiter Finished false;
                        AwaitWaiter Pending false];
              release_tasks := 0;
              history := [Enqueued 1; Enqueued 2; Woke 1] |}
           eq_refl).
Defined.

End CMS_entries.

(** ** [MonitoredSemaphore] at a fixed limit *)
Module MS_fixed.
Import MS.

Ltac ms_simpl :=
  cbn [heap _semaphore _old_semaphores _max_value _active_count _lock tasks
       set_heap set_semaphore set_old_semaphores set_max_value
       set_active_count set_lock set_tasks _value sem_waiters] in *.

Lemma wake_up_next_spec (s : state) (v : Z) (ws : list nat) :
  heap s = [Semaphore v ws] ->
  _wake_up_next 0 s =
  match List.find (not_woken (tasks s)) ws with
  | None => Ok tt s
  | Some w =>
      Ok tt (set_tasks (<[w := Acquiring 0 true]> (tasks s))
               (set_heap [Semaphore (v - 1) ws] s))
  end.
Proof.
  intros Hh. unfold _wake_up_next. rewrite Hh. reflexivity.
Qed.

Lemma enter_spec (s : state) (v : Z) (ws : list nat) :
  _lock s = false -> _semaphore s = 0%nat -> heap s = [Semaphore v ws] ->
  __aenter__ s =
  if negb (locked (Semaphore v ws)) then
    Ok true (set_tasks (tasks s ++ [Holding])
               (set_active_count (_active_count s + 1)
                  (set_heap [Semaphore (v - 1) ws] s)))
  else
    Ok false (set_tasks (tasks s ++ [Acquiring 0 false])
                (set_heap [Semaphore v (ws ++ [length (tasks s)])] s)).
Proof.
  intros Hl Hc Hh.
  unfold __aenter__, bind, get. rewrite Hc. unfold sem_acquire. rewrite Hh.
  cbn [lookup list_lookup].
  destruct (negb (locked (Semaphore v ws))); ms_simpl.
  - unfold incr_active, with_lock, modify, ret. ms_simpl. rewrite Hl.
    destruct s; ms_simpl; subst; reflexivity.
  - reflexivity.
Qed.

Lemma not_woken_lookup (tk : list task) (w : nat) :
  not_woken tk w = true -> exists k, tk !! w = Some (Acquiring k false).
Proof.
  unfold not_woken. destruct (tk !! w) as [[k []| |]|]; try discriminate.
  eauto.
Qed.

Lemma monitored_inv_init (L : Z) : 0 <= L -> inv_fixed L (__init__ L).
Proof.
  intros HL. unfold inv_fixed, holders. simpl.
  repeat split; try discriminate.
  exists L, []. repeat split; [exact HL|lia].
Qed.

(** The effect of [_wake_up_next] on the counts. *)
Lemma wake_up_next_counts (s : state) (v : Z) (ws : list nat) :
  heap s = [Semaphore v ws] ->
  (forall t k b, tasks s !! t = Some (Acquiring k b) -> k = 0%nat) ->
  0 < v ->
  exists s' v',
    _wake_up_next 0 s = Ok tt s' /\
    heap s' = [Semaphore v' ws] /\ 0 <= v' /\
    _lock s' = _lock s /\ _semaphore s' = _semaphore s /\
    _max_value s' = _max_value s /\ _active_count s' = _active_count s /\
    holders s' = holders s /\
    v' + Z.of_nat (count is_woken (tasks s')) =
      v + Z.of_nat (count is_woken (tasks s)) /\
    (forall t k b, tasks s' !! t = Some (Acquiring k b) -> k = 0%nat) /\
    (forall t, tasks s !! t = Some Holding -> tasks s' !! t = Some Holding) /\
    (forall t k, tasks s !! t = Some (Acquiring k true) ->
                 tasks s' !! t = Some (Acquiring k true)) /\
    length (tasks s') = length (tasks s).
Proof.
  intros Hh Hk Hv. rewrite (wake_up_next_spec s v ws Hh).
  destruct (List.find (not_woken (tasks s)) ws) as [w|] eqn:Hf.
  - apply find_some in Hf as [_ Hw].
    apply not_woken_lookup in Hw as [k Hw].
    exists (set_tasks (<[w := Acquiring 0 true]> (tasks s))
              (set_heap [Semaphore (v - 1) ws] s)), (v - 1).
    unfold holders. ms_simpl.
    pose proof (count_insert is_holding _ w _ (Acquiring 0 true) Hw) as C1.
    pose proof (count_insert is_woken _ w _ (Acquiring 0 true) Hw) as C2.
    simpl in C1, C2.
    split; [reflexivity|]. split; [reflexivity|]. split; [lia|].
    split; [reflexivity|]. split; [reflexivity|]. split; [reflexivity|].
    split; [reflexivity|]. split; [lia|]. split; [lia|].
    split; [|split; [|split]].
    + intros t k0 b Ht. destruct (decide (w = t)) as [->|Hne].
      * rewrite list_lookup_insert_eq in Ht by (eapply lookup_lt_Some, Hw).
        congruence.
      * rewrite list_lookup_insert_ne in Ht by exact Hne. eauto.
    + intros t Ht. rewrite list_lookup_insert_ne; [exact Ht|]. congruence.
    + intros t k0 Ht. rewrite list_lookup_insert_ne; [exact Ht|]. congruence.
    + apply length_insert.
  - exists s, v. repeat split; auto; lia.
Qed.

Lemma monitored_inv_exec (L : Z) (o : op) (s s' : state) :
  inv_fixed L s -> no_resize [o] = true -> exec o s = Some s' ->
  inv_fixed L s'.
Proof.
  intros (Hl & Hm & Hc & Ha & Hk & v & ws & Hh & Hv & Hsum) Hn Hs.
  destruct o as [|t|t|n]; [| | |discriminate]; cbn [exec step] in Hs.
  - (* enter *)
    rewrite (enter_spec s v ws Hl Hc Hh) in Hs.
    destruct (negb (locked (Semaphore v ws))) eqn:Hlocked;
      injection Hs as <-; unfold inv_fixed, holders in *; ms_simpl;
      rewrite !count_app; simpl.
    + apply negb_true_iff, orb_false_iff in Hlocked as [Hz _].
      apply Z.eqb_neq in Hz. cbn [_value] in Hz.
      split; [exact Hl|]. split; [exact Hm|]. split; [exact Hc|].
      split; [lia|]. split.
      * intros t k b Ht.
        destruct (decide (t < length (tasks s))%nat) as [Hlt|Hge].
        -- rewrite lookup_app_l in Ht by exact Hlt. eauto.
        -- rewrite lookup_app_r in Ht by lia.
           destruct (t - length (tasks s))%nat; simpl in Ht; discriminate.
      * exists (v - 1), ws. split; [reflexivity|]. split; lia.
    + split; [exact Hl|]. split; [exact Hm|]. split; [exact Hc|].
      split; [lia|]. split.
      * intros t k b Ht.
        destruct (decide (t < length (tasks s))%nat) as [Hlt|Hge].
        -- rewrite lookup_app_l in Ht by exact Hlt. eauto.
        -- rewrite lookup_app_r in Ht by lia.
           destruct (t - length (tasks s))%nat; simpl in Ht;
             [congruence|discriminate].
      * exists v, (ws ++ [length (tasks s)]).
        split; [reflexivity|]. split; lia.
  - (* a woken task runs again *)
    unfold aenter_resume in Hs.
    destruct (tasks s !! t) as [[k [|]| |]|] eqn:Ht; try discriminate.
    pose proof (Hk t k true Ht) as ->.
    unfold bind at 1 in Hs. unfold sem_acquire_resume in Hs.
    rewrite Hh in Hs. cbn [lookup list_lookup insert list_insert] in Hs.
    ms_simpl.
    set (ws' := List.filter (fun w => negb (Nat.eqb w t)) ws) in *.
    set (s1 := set_heap [Semaphore v ws'] s) in *.
    assert (Hmid : exists s2 v2,
               (if 0 <? v then _wake_up_next 0 s1 else Ok tt s1) = Ok tt s2 /\
               heap s2 = [Semaphore v2 ws'] /\ 0 <= v2 /\
               _lock s2 = false /\ _semaphore s2 = 0%nat /\
               _max_value s2 = L /\ _active_count s2 = _active_count s /\
               holders s2 = holders s /\
               v2 + Z.of_nat (count is_woken (tasks s2)) =
                 v + Z.of_nat (count is_woken (tasks s)) /\
               (forall t k b, tasks s2 !! t = Some (Acquiring k b) ->
                              k = 0%nat) /\
               tasks s2 !! t = Some (Acquiring 0 true)).
    { destruct (0 <? v) eqn:Hpos.
      - apply Z.ltb_lt in Hpos.
        destruct (wake_up_next_counts s1 v ws' eq_refl Hk Hpos)
          as (s2 & v2 & E & E1 & E2 & E3 & E4 & E5 & E6 & E7 & E8 & E9 & _
              & E10 & _).
        exists s2, v2. unfold s1 in *. ms_simpl.
        repeat split; try assumption; try congruence; auto.
      - exists s1, v. unfold s1. ms_simpl.
        repeat split; try assumption; auto. }
    destruct Hmid as (s2 & v2 & E & H1 & H2 & H3 & H4 & H5 & H6 & H7 & H8
                      & H9 & H10).
    rewrite E in Hs. unfold bind, incr_active, with_lock, modify in Hs.
    rewrite H3 in Hs. ms_simpl. injection Hs as <-.
    unfold inv_fixed, holders in *. ms_simpl.
    pose proof (count_insert is_holding _ t _ Holding H10) as C1.
    pose proof (count_insert is_woken _ t _ Holding H10) as C2.
    simpl in C1, C2.
    split; [reflexivity|]. split; [exact H5|]. split; [exact H4|].
    split; [lia|]. split.
    + intros t0 k b Ht0. destruct (decide (t = t0)) as [->|Hne].
      * rewrite list_lookup_insert_eq in Ht0 by (eapply lookup_lt_Some, H10).
        discriminate.
      * rewrite list_lookup_insert_ne in Ht0 by exact Hne. eauto.
    + exists v2, ws'. split; [exact H1|]. split; lia.
  - (* exit *)
    destruct (tasks s !! t) as [[k b| |]|] eqn:Ht; try discriminate.
    unfold bind, modify, __aexit__, bind, with_lock, modify, get in Hs.
    ms_simpl. rewrite Hl in Hs. ms_simpl. rewrite Hc in Hs.
    unfold sem_release in Hs. ms_simpl. rewrite Hh in Hs.
    cbn [lookup list_lookup insert list_insert] in Hs. ms_simpl.
    set (s1 := set_heap [Semaphore (v + 1) ws]
                 (set_lock false
                    (set_active_count (_active_count s - 1)
                       (set_lock true
                          (set_tasks (<[t := Exited]> (tasks s)) s))))) in *.
    pose proof (count_insert is_holding _ t _ Exited Ht) as C1.
    pose proof (count_insert is_woken _ t _ Exited Ht) as C2.
    simpl in C1, C2.
    assert (Hk1 : forall t0 k b, tasks s1 !! t0 = Some (Acquiring k b) ->
                            k = 0%nat).
    { unfold s1. ms_simpl. intros t0 k b Ht0.
      destruct (decide (t = t0)) as [->|Hne].
      - rewrite list_lookup_insert_eq in Ht0 by (eapply lookup_lt_Some, Ht).
        discriminate.
      - rewrite list_lookup_insert_ne in Ht0 by exact Hne. eauto. }
    destruct (wake_up_next_counts s1 (v + 1) ws eq_refl Hk1 ltac:(lia))
      as (s2 & v2 & E & E1 & E2 & E3 & E4 & E5 & E6 & E7 & E8 & E9 & _).
    rewrite E in Hs. injection Hs as <-.
    unfold inv_fixed, holders in *. unfold s1 in *. ms_simpl.
    split; [exact E3|]. split; [congruence|]. split; [congruence|].
    split; [lia|]. split; [exact E9|].
    exists v2, ws. split; [exact E1|]. split; lia.
Qed.

Lemma monitored_inv_exec_all (L : Z) (os : list op) (s s' : state) :
  inv_fixed L s -> no_resize os = true -> exec_all os s = Some s' ->
  inv_fixed L s'.
Proof.
  revert s. induction os as [|o os IH]; intros s Hi Hn Hr; simpl in *.
  - injection Hr as <-. exact Hi.
  - apply andb_true_iff in Hn as [Ho Hn].
    destruct (exec o s) as [s1|] eqn:Hs; [|discriminate].
    apply (IH s1); [|exact Hn|exact Hr].
    eapply monitored_inv_exec; [exact Hi| |exact Hs].
    simpl. rewrite Ho. reflexivity.
Qed.

(** At a fixed limit [L >= 0] (no [update_limit]) the wrapper is sound: the
    number of holders never exceeds [L], [_active_count] is the number of
    holders, and so [available_permits] is never negative. *)
Theorem monitored_fixed_limit_bound (L : Z) (os : list op) (s : state) :
  0 <= L ->
  no_resize os = true ->
  exec_all os (__init__ L) = Some s ->
  Z.of_nat (holders s) <= L /\
  _active_count s = Z.of_nat (holders s) /\
  0 <= fst (available_permits s).
Proof.
  intros HL Hn Hr.
  destruct (monitored_inv_exec_all L os _ s (monitored_inv_init L HL) Hn Hr)
    as (_ & Hm & _ & Ha & _ & v & ws & _ & Hv & Hsum).
  cbn [fst available_permits]. lia.
Qed.

Lemma monitored_fixed_limit_bound_witness :
  Z.of_nat
    (holders
       {| heap := [Semaphore 0 []]; _semaphore := 0;
          _old_semaphores := []; _max_value := 1; _active_count := 1;
          _lock := false; tasks := [Exited; Holding] |}) <= 1.
Proof.
  apply (monitored_fixed_limit_bound 1
           [Acquire; Acquire; Release 0%nat; Resume 1%nat]
           {| heap := [Semaphore 0 []]; _semaphore := 0;
              _old_semaphores := []; _max_value := 1; _active_count := 1;
              _lock := false; tasks := [Exited; Holding] |}).
  - lia.
  - reflexivity.
  - reflexivity.
Defined.

End MS_fixed.

(** ** [MonitoredSemaphore] across a resize *)
Module MS_resize.
Import MS MS_fixed.

Lemma update_limit_effective (n : Z) (s : state) :
  _lock s = false -> 0 < n -> n <> _max_value s ->
  update_limit n s =
  Ok tt (set_max_value n
           (set_semaphore (length (heap s))
              (set_heap (heap s ++ [Semaphore n []])
                 (set_old_semaphores (_old_semaphores s ++ [_semaphore s])
                    s)))).
Proof.
  intros Hl Hn Hne. unfold update_limit.
  replace (n <=? 0) with false by (symmetry; apply Z.leb_gt; exact Hn).
  unfold with_lock, bind, get, modify. rewrite Hl. ms_simpl.
  replace (n =? _max_value s) with false
    by (symmetry; apply Z.eqb_neq; exact Hne).
  ms_simpl. destruct s; ms_simpl; subst; reflexivity.
Qed.

(** A second [update_limit] with the same argument changes nothing, also
    for a rejected argument. *)
Theorem monitored_update_limit_idempotent (n : Z) (s s1 : state) :
  _lock s = false ->
  update_limit n s = Ok tt s1 ->
  update_limit n s1 = Ok tt s1.
Proof.
  intros Hl H1.
  destruct (Z_le_gt_dec n 0) as [Hn|Hn].
  { rewrite Limits.monitored_swallows_nonpositive in H1 by exact Hn.
    injection H1 as <-. apply Limits.monitored_swallows_nonpositive, Hn. }
  destruct (Z.eq_dec n (_max_value s)) as [Heq|Hne].
  - subst n. rewrite Limits.monitored_same_limit_noop in H1 by (auto; lia).
    injection H1 as <-. apply Limits.monitored_same_limit_noop; auto. lia.
  - rewrite update_limit_effective in H1 by (auto; lia).
    injection H1 as <-.
    apply (Limits.monitored_same_limit_noop
             (set_max_value n
                (set_semaphore (length (heap s))
                   (set_heap (heap s ++ [Semaphore n []])
                      (set_old_semaphores
                         (_old_semaphores s ++ [_semaphore s]) s)))));
      ms_simpl; [exact Hl|lia].
Qed.

Lemma monitored_update_limit_idempotent_witness :
  update_limit 3
    {| heap := [Semaphore 5 []; Semaphore 3 []]; _semaphore := 1;
       _old_semaphores := [0%nat]; _max_value := 3; _active_count := 0;
       _lock := false; tasks := [] |} =
  Ok tt
    {| heap := [Semaphore 5 []; Semaphore 3 []]; _semaphore := 1;
       _old_semaphores := [0%nat]; _max_value := 3; _active_count := 0;
       _lock := false; tasks := [] |}.
Proof.
  apply (monitored_update_limit_idempotent 3 (__init__ 5)).
  - reflexivity.
  - reflexivity.
Defined.

(** Release across a resize.  A holder that entered before an effective
    [update_limit(n)] and leaves after it releases the fresh semaphore, not
    the one it acquired: the fresh semaphore then counts [n + 1] free
    permits, one more than the limit, and the old semaphore does not get
    its permit back. *)
Theorem exit_after_resize_releases_the_new_semaphore
        (n : Z) (t : nat) (s : state) :
  _lock s = false ->
  tasks s !! t = Some Holding ->
  0 < n -> n <> _max_value s ->
  exists s',
    exec_all [SetLimit n; Release t] s = Some s' /\
    _max_value s' = n /\
    _semaphore s' = length (heap s) /\
    heap s' = heap s ++ [Semaphore (n + 1) []] /\
    _old_semaphores s' = _old_semaphores s ++ [_semaphore s] /\
    _active_count s' = _active_count s - 1 /\
    tasks s' = <[t := Exited]> (tasks s).
Proof.
  intros Hl Ht Hn Hne.
  cbn [exec_all exec step].
  rewrite update_limit_effective by assumption. cbn [after]. ms_simpl.
  rewrite Ht.
  unfold bind, modify, __aexit__, bind, with_lock, modify, get. ms_simpl.
  rewrite Hl. ms_simpl.
  unfold sem_release. ms_simpl.
  rewrite list_lookup_middle by reflexivity. ms_simpl.
  unfold _wake_up_next. ms_simpl.
  rewrite insert_app_r_alt by lia. rewrite Nat.sub_diag.
  cbn [insert list_insert].
  rewrite list_lookup_middle by reflexivity. ms_simpl.
  cbn [List.find after].
  eexists. split; [reflexivity|]. ms_simpl.
  repeat split.
Qed.

Lemma exit_after_resize_releases_the_new_semaphore_witness :
  exists s',
    exec_all [SetLimit 2; Release 0%nat]
      {| heap := [Semaphore 0 []]; _semaphore := 0; _old_semaphores := [];
         _max_value := 1; _active_count := 1; _lock := false;
         tasks := [Holding] |} = Some s' /\
    heap s' = [Semaphore 0 []; Semaphore 3 []].
Proof.
  destruct (exit_after_resize_releases_the_new_semaphore 2 0%nat
              {| heap := [Semaphore 0 []]; _semaphore := 0;
                 _old_semaphores := []; _max_value := 1;
                 _active_count := 1; _lock := false; tasks := [Holding] |}
              eq_refl eq_refl ltac:(reflexivity) ltac:(discriminate))
    as (s' & E & _ & _ & Eh & _).
  exists s'. split; [exact E|exact Eh].
Defined.

End MS_resize.

(** ** Further properties of the policy fetch and the update loop *)
Module Policy_more.

Lemma fetch_some_iff (r : get_result) (v : pyval) :
  _fetch_limit_from_url r = Some v <->
  exists d,
    r = GetReturns 200 (Some (PDict d)) /\
    dict_get d "limit" = v /\
    ((exists z, v = PInt z /\ 0 < z) \/ v = PBool true).
Proof.
  split.
  - destruct r as [|code body]; simpl; [discriminate|].
    destruct (code =? 200) eqn:Hc; [|discriminate].
    apply Z.eqb_eq in Hc. subst code.
    destruct body as [data|]; [|discriminate].
    destruct data as [|b|z|q|str|l|d]; simpl; try discriminate.
    destruct (isinstance_int (dict_get d "limit") &&
              (0 <? int_value (dict_get d "limit"))) eqn:Hok; [|discriminate].
    intros [= <-]. exists d. split; [reflexivity|]. split; [reflexivity|].
    apply andb_true_iff in Hok as [Hi Hp]. apply Z.ltb_lt in Hp.
    destruct (dict_get d "limit") as [|[|]|z| | | |]; simpl in *;
      try discriminate; try lia; eauto.
  - intros (d & -> & Hd & Hv). simpl. rewrite Hd.
    destruct Hv as [(z & -> & Hz)| ->]; simpl; [|reflexivity].
    replace (0 <? z) with true by (symmetry; apply Z.ltb_lt; exact Hz).
    reflexivity.
Qed.

(** [_fetch_limit_from_url] returns a value exactly when the request
    returned status 200 with a JSON object as body whose ["limit"] entry is
    a positive [int] or [True]; the value returned is that entry.  In all
    other cases it returns [None]. *)
Theorem fetch_returns_exactly_positive_ints (r : get_result) (v : pyval) :
  _fetch_limit_from_url r = Some v <->
  exists d,
    r = GetReturns 200 (Some (PDict d)) /\
    dict_get d "limit" = v /\
    ((exists z, v = PInt z /\ 0 < z) \/ v = PBool true).
Proof. apply fetch_some_iff. Qed.

Lemma cancellable_update_accepts (n : Z) (s : CMS.state) :
  CMS._lock s = false -> 0 < n ->
  exists s', CMS.update_limit n s = Ok tt s'.
Proof.
  intros Hl Hn.
  destruct (Z.lt_trichotomy n (CMS._max_value s)) as [Hlt|[Heq|Hgt]].
  - rewrite CMS_ops.update_limit_shrink by assumption. eauto.
  - rewrite CMS_ops.update_limit_same by assumption. eauto.
  - rewrite CMS_ops.update_limit_grow by assumption.
    destruct (n - CMS._active_count s <? 0); eauto.
Qed.

(** One round of the update loop of [CancellableMonitoredSemaphore] never
    raises and never changes the active count or the holders.  When the
    fetch fails, the event loop was not captured yet, or the hand-over to
    the event loop does not complete, the state is left as it is; when the
    hand-over completes, the fetched value, which is positive, is installed
    as the limit. *)
Theorem update_round_is_safe
        (r : get_result) (loop_captured : bool) (h : handover)
        (s : CMS.state) :
  CMS._lock s = false ->
  exists s',
    CMS._update_loop_tick r loop_captured h s = Ok tt s' /\
    CMS._active_count s' = CMS._active_count s /\
    CMS.holders s' = CMS.holders s /\
    (_fetch_limit_from_url r = None \/ loop_captured = false \/ h = NotRun ->
     s' = s) /\
    (forall v, _fetch_limit_from_url r = Some v -> loop_captured = true ->
               h = Completed ->
               0 < int_value v /\ CMS._max_value s' = int_value v).
Proof.
  intros Hl. unfold CMS._update_loop_tick.
  destruct (_fetch_limit_from_url r) as [v|] eqn:Hf.
  - destruct loop_captured; [destruct h|].
    + assert (Hpos : 0 < int_value v).
      { apply fetch_some_iff in Hf
          as (d & _ & _ & [(z & -> & Hz)| ->]); simpl; lia. }
      destruct (cancellable_update_accepts (int_value v) s Hl Hpos)
        as [s' E].
      rewrite E. exists s'. split; [reflexivity|].
      assert (Hs : CMS.step (CMS.EUpdateLimit (int_value v)) s = Some s')
        by (cbn [CMS.step]; rewrite E; reflexivity).
      destruct (CMS_counters.update_limit_frame _ s s' Hl Hs)
        as (_ & Ha & Hh & _ & _ & _ & _ & Hm).
      split; [exact Ha|]. split; [exact Hh|]. split.
      * intros [H|[H|H]]; discriminate.
      * intros v0 [= <-] _ _. split; [exact Hpos|apply Hm, Hpos].
    + exists s. split; [reflexivity|]. split; [reflexivity|].
      split; [reflexivity|]. split; [reflexivity|].
      intros v0 _ _ H. discriminate.
    + exists s. split; [reflexivity|]. split; [reflexivity|].
      split; [reflexivity|]. split; [reflexivity|].
      intros v0 _ H. discriminate.
  - exists s. split; [reflexivity|]. split; [reflexivity|].
    split; [reflexivity|]. split; [reflexivity|].
    intros v0 H. discriminate.
Qed.

Lemma update_round_is_safe_witness :
  exists s',
    CMS._update_loop_tick
      (GetReturns 200 (Some (PDict [("limit", PInt 7)]))) true Completed
      (CMS.__init__ 5) = Ok tt s' /\
    CMS._active_count s' = 0.
Proof.
  destruct (update_round_is_safe
              (GetReturns 200 (Some (PDict [("limit", PInt 7)]))) true
              Completed (CMS.__init__ 5) eq_refl) as (s' & E & Ea & _).
  exists s'. split; [exact E|exact Ea].
Defined.

End Policy_more.

(** ** Further properties of [CancellableMonitoredSemaphore]: the pool *)
Module CMS_pool.
Import CMS CMS_ops CMS_lists CMS_queue CMS_fixed CMS_fifo.

Lemma granted_mark_all_cancelled (ws : list nat) (tk : list task) :
  count is_granted (snd (mark_all FutCancelled ws tk)) = count is_granted tk.
Proof.
  revert tk. induction ws as [|w ws IH]; intros tk; simpl; [reflexivity|].
  destruct (pending tk w); simpl; rewrite IH; [|reflexivity].
  apply granted_mark_cancelled.
Qed.

Lemma granted_mark_all_finished (ws : list nat) (tk : list task) :
  count is_granted (snd (mark_all Finished ws tk)) =
  (count is_granted tk + length (fst (mark_all Finished ws tk)))%nat.
Proof.
  revert tk. induction ws as [|w ws IH]; intros tk; simpl; [lia|].
  destruct (pending tk w) eqn:E; simpl; rewrite IH; [|reflexivity].
  rewrite (granted_mark_finished w tk E). lia.
Qed.

(** What an effective [update_limit(n)] makes of the pool: the active
    count, the free permits and the waiters woken but not yet resumed then
    add up to [max(n, active)] plus the number of waiters that had been
    woken before the call and had not run yet.  The new number of free
    permits is computed from the active count alone, so such waiters are
    counted a second time. *)
Theorem update_limit_resets_the_pool (n : Z) (s : state) :
  _lock s = false -> 0 < n -> n <> _max_value s ->
  exists s',
    update_limit n s = Ok tt s' /\
    _max_value s' = n /\
    _active_count s' + _available s' + Z.of_nat (granted s') =
      Z.max n (_active_count s) + Z.of_nat (granted s).
Proof.
  intros Hl Hn Hne.
  destruct (Z.lt_trichotomy n (_max_value s)) as [Hlt|[Heq|Hgt]];
    [|congruence|].
  - rewrite update_limit_shrink by assumption.
    eexists. split; [reflexivity|]. unfold granted.
    cbn [_max_value _active_count _available tasks set_history set_tasks
         set_waiters set_available set_max_value].
    rewrite granted_mark_all_cancelled. split; [reflexivity|]. lia.
  - rewrite update_limit_grow by assumption.
    destruct (n - _active_count s <? 0) eqn:E.
    + apply Z.ltb_lt in E. eexists. split; [reflexivity|]. unfold granted.
      cbn [_max_value _active_count _available tasks set_available
           set_max_value].
      split; [reflexivity|]. lia.
    + apply Z.ltb_ge in E. eexists. split; [reflexivity|]. unfold granted.
      cbn [_max_value _active_count _available tasks set_history set_tasks
           set_waiters set_available set_max_value].
      rewrite granted_mark_all_finished. split; [reflexivity|]. lia.
Qed.

Lemma update_limit_resets_the_pool_witness :
  exists s',
    update_limit 2
      {| _max_value := 1; _active_count := 0; _available := 0;
         _waiters := []; _lock := false;
         tasks := [Released; AwaitWaiter Finished false];
         release_tasks := 0; history := [Enqueued 1; Woke 1] |}
    = Ok tt s' /\
    _active_count s' + _available s' + Z.of_nat (granted s') = 3.
Proof.
  destruct (update_limit_resets_the_pool 2
              {| _max_value := 1; _active_count := 0; _available := 0;
                 _waiters := []; _lock := false;
                 tasks := [Released; AwaitWaiter Finished false];
                 release_tasks := 0; history := [Enqueued 1; Woke 1] |}
              eq_refl ltac:(reflexivity) ltac:(discriminate))
    as (s' & E & _ & Es).
  exists s'. split; [exact E|exact Es].
Defined.

Lemma pending_insert_false (tk : list task) (i t : nat) (k : task) :
  (forall mc, k <> AwaitWaiter Pending mc) ->
  pending tk t = false -> pending (<[i := k]> tk) t = false.
Proof.
  intros Hk Hp. unfold pending in *.
  destruct (decide (i = t)) as [->|Hne].
  - destruct (decide (t < length tk)%nat) as [Hlt|Hge].
    + rewrite list_lookup_insert_eq by exact Hlt.
      destruct k as [[] mc| | |]; try reflexivity. exfalso. eapply Hk.
      reflexivity.
    + rewrite list_insert_ge by lia. exact Hp.
  - rewrite list_lookup_insert_ne by exact Hne. exact Hp.
Qed.

Lemma inv_no_idle_permit_step (e : event) (s s' : state) :
  inv_queue s -> inv_no_idle_permit s -> is_update e = false ->
  step e s = Some s' -> inv_no_idle_permit s'.
Proof.
  intros [Hl HQ] Hi Hu Hs. unfold inv_no_idle_permit in *.
  destruct HQ as (_ & _ & Hpq & _).
  destruct e as [|t|t|t| |n]; simpl in Hs; try discriminate.
  - destruct (Z_lt_le_dec 0 (_available s)) as [Hpos|Hnp].
    + rewrite acquire_fast in Hs by assumption. injection Hs as <-. simpl.
      intros _ t. rewrite CMS_compose.pending_snoc by discriminate.
      apply Hi, Hpos.
    + rewrite acquire_slow in Hs by assumption. injection Hs as <-. simpl.
      intros Hv. lia.
  - destruct (tasks s !! t) as [[f mc| | |]|] eqn:Ht;
      try (unfold acquire_resume in Hs; rewrite Ht in Hs; discriminate).
    destruct f.
    + unfold acquire_resume in Hs. rewrite Ht in Hs. discriminate.
    + destruct mc.
      * rewrite (resume_cancelled t s Finished true Ht) in Hs by auto.
        injection Hs as <-. simpl. intros Hv t0.
        apply pending_insert_false; [discriminate|auto].
      * rewrite (resume_granted t s Hl Ht) in Hs. injection Hs as <-. simpl.
        intros Hv t0. apply pending_insert_false; [discriminate|auto].
    + rewrite (resume_cancelled t s FutCancelled mc Ht) in Hs by auto.
      injection Hs as <-. simpl. intros Hv t0.
      apply pending_insert_false; [discriminate|auto].
  - destruct (tasks s !! t) as [[f mc| | |]|] eqn:Ht; try discriminate.
    unfold task_cancel, cancel in Hs. rewrite Ht in Hs.
    destruct f; simpl in Hs; injection Hs as <-; simpl; intros Hv t0;
      (apply pending_insert_false; [discriminate|auto]).
  - destruct (tasks s !! t) as [[f mc| | |]|] eqn:Ht; try discriminate.
    simpl in Hs. injection Hs as <-. simpl. intros Hv t0.
    apply pending_insert_false; [discriminate|auto].
  - destruct (release_tasks s) as [|n] eqn:Hr; [discriminate|].
    rewrite release_async_spec in Hs by (simpl; assumption). simpl in Hs.
    destruct (first_pending (tasks s) (_waiters s)) as [[w rest]|] eqn:Hp;
      injection Hs as <-; simpl.
    + intros Hv t0. specialize (Hi Hv t0).
      destruct (pending (alter (mark Finished) w (tasks s)) t0) eqn:E;
        [|reflexivity].
      apply pending_alter in E. congruence.
    + intros _ t0. apply first_pending_none in Hp.
      rewrite Forall_forall in Hp.
      destruct (pending (tasks s) t0) eqn:E; [|reflexivity].
      rewrite (Hp t0 (Hpq t0 E)) in E. discriminate.
Qed.

Lemma inv_no_idle_permit_run (es : list event) (s s' : state) :
  inv_queue s -> inv_no_idle_permit s -> no_update es = true ->
  run es s = Some s' -> inv_no_idle_permit s'.
Proof.
  revert s. induction es as [|e es IH]; intros s Hq Hi Hn Hr; simpl in *.
  - injection Hr as <-. exact Hi.
  - apply andb_true_iff in Hn as [He Hn]. apply negb_true_iff in He.
    destruct (step e s) as [s1|] eqn:Hs; [|discriminate].
    apply (IH s1);
      [eapply inv_queue_step; eassumption
      |eapply inv_no_idle_permit_step; eassumption|exact Hn|exact Hr].
Qed.

(** At a fixed limit nobody waits while a permit is free: in every
    execution without [update_limit], whenever [_available > 0] no waiter
    is pending, and so every waiter still in the queue is already done. *)
Theorem no_waiter_while_a_permit_is_free
        (L : Z) (es : list event) (s : state) :
  no_update es = true ->
  run es (__init__ L) = Some s ->
  0 < _available s ->
  (forall t, pending (tasks s) t = false) /\
  first_pending (tasks s) (_waiters s) = None.
Proof.
  intros Hn Hr Hv.
  assert (Hi : inv_no_idle_permit s).
  { apply (inv_no_idle_permit_run es (__init__ L) s);
      [apply inv_queue_init| |exact Hn|exact Hr].
    intros _ t. reflexivity. }
  split; [apply Hi, Hv|].
  destruct (first_pending (tasks s) (_waiters s)) as [[w rest]|] eqn:Hf;
    [|reflexivity].
  apply first_pending_some in Hf as (_ & _ & _ & Hw).
  rewrite (Hi Hv w) in Hw. discriminate.
Qed.

Lemma no_waiter_while_a_permit_is_free_witness :
  first_pending [Released; Failed] [] = None.
Proof.
  apply (no_waiter_while_a_permit_is_free 1
           [EAcquire; EAcquire; ECancel 1%nat; EResume 1%nat;
            ERelease 0%nat; ERunRelease]
           {| _max_value := 1; _active_count := 0; _available := 1;
              _waiters := []; _lock := false; tasks := [Released; Failed];
              release_tasks := 0; history := [Enqueued 1; Cancel 1] |}).
  - reflexivity.
  - reflexivity.
  - reflexivity.
Defined.

End CMS_pool.

(** ** [MonitoredSemaphore]: the active count *)
Module MS_active.
Import MS MS_fixed.

Lemma wake_up_next_ok (k : nat) (s : state) (sem : semaphore) :
  heap s !! k = Some sem ->
  exists s',
    _wake_up_next k s = Ok tt s' /\
    _lock s' = _lock s /\
    _active_count s' = _active_count s /\
    _max_value s' = _max_value s /\
    holders s' = holders s /\
    (forall t k0, tasks s !! t = Some (Acquiring k0 true) ->
                  tasks s' !! t = Some (Acquiring k0 true)).
Proof.
  intros Hh. unfold _wake_up_next. rewrite Hh.
  destruct (List.find (not_woken (tasks s)) (sem_waiters sem)) as [w|] eqn:Hf.
  - apply find_some in Hf as [_ Hw].
    apply not_woken_lookup in Hw as [k1 Hw].
    eexists. split; [reflexivity|]. unfold holders. ms_simpl.
    pose proof (count_insert is_holding _ w _ (Acquiring k true) Hw) as C.
    simpl in C.
    split; [reflexivity|]. split; [reflexivity|]. split; [reflexivity|].
    split; [lia|].
    intros t k0 Ht. rewrite list_lookup_insert_ne; [exact Ht|]. congruence.
  - exists s. repeat split; auto.
Qed.

Lemma active_is_holders_exec (o : op) (s s' : state) :
  _lock s = false ->
  _active_count s = Z.of_nat (holders s) ->
  exec o s = Some s' ->
  _lock s' = false /\ _active_count s' = Z.of_nat (holders s').
Proof.
  intros Hl Ha Hs.
  destruct o as [|t|t|n]; cbn [exec step] in Hs.
  - (* enter *)
    unfold __aenter__, bind, get, sem_acquire in Hs.
    destruct (heap s !! _semaphore s) as [sem|] eqn:Hh.
    + destruct (negb (locked sem)).
      * unfold incr_active, with_lock, modify, ret in Hs. ms_simpl.
        rewrite Hl in Hs. ms_simpl. injection Hs as <-.
        unfold holders in *. ms_simpl. rewrite count_app. simpl.
        split; [reflexivity|lia].
      * injection Hs as <-. unfold holders in *. ms_simpl.
        rewrite count_app. simpl. split; [exact Hl|lia].
    + injection Hs as <-. split; assumption.
  - (* a woken task runs again *)
    unfold aenter_resume in Hs.
    destruct (tasks s !! t) as [[k [|]| |]|] eqn:Ht; try discriminate.
    unfold bind at 1 in Hs. unfold sem_acquire_resume in Hs.
    destruct (heap s !! k) as [sem|] eqn:Hh.
    + set (s1 := set_heap
                   (<[k := Semaphore (_value sem)
                             (List.filter (fun w => negb (Nat.eqb w t))
                                (sem_waiters sem))]> (heap s)) s) in *.
      assert (Hmid : exists s2,
                 (if 0 <? _value sem then _wake_up_next k s1 else Ok tt s1)
                 = Ok tt s2 /\
                 _lock s2 = false /\
                 _active_count s2 = _active_count s /\
                 holders s2 = holders s /\
                 tasks s2 !! t = Some (Acquiring k true)).
      { destruct (0 <? _value sem).
        - assert (Hh1 : heap s1 !! k =
                        Some (Semaphore (_value sem)
                                (List.filter (fun w => negb (Nat.eqb w t))
                                   (sem_waiters sem)))).
          { unfold s1. ms_simpl. apply list_lookup_insert_eq.
            eapply lookup_lt_Some, Hh. }
          destruct (wake_up_next_ok k s1 _ Hh1)
            as (s2 & E & E1 & E2 & _ & E3 & E4).
          exists s2. unfold s1 in *. ms_simpl.
          repeat split; try congruence; auto.
        - exists s1. unfold s1, holders. ms_simpl. repeat split; auto. }
      destruct Hmid as (s2 & E & H1 & H2 & H3 & H4).
      rewrite E in Hs. unfold bind, incr_active, with_lock, modify in Hs.
      rewrite H1 in Hs. ms_simpl. injection Hs as <-.
      unfold holders in *. ms_simpl.
      pose proof (count_insert is_holding _ t _ Holding H4) as C.
      simpl in C. split; [reflexivity|lia].
    + injection Hs as <-. split; assumption.
  - (* exit *)
    destruct (tasks s !! t) as [[k b| |]|] eqn:Ht; try discriminate.
    unfold bind, modify, __aexit__, bind, with_lock, modify, get in Hs.
    ms_simpl. rewrite Hl in Hs. ms_simpl.
    unfold sem_release in Hs. ms_simpl.
    pose proof (count_insert is_holding _ t _ Exited Ht) as C.
    simpl in C.
    destruct (heap s !! _semaphore s) as [sem|] eqn:Hh.
    + match type of Hs with
      | after (_wake_up_next ?k ?s1) = _ =>
          assert (Hh1 : heap s1 !! k =
                        Some (Semaphore (_value sem + 1) (sem_waiters sem)))
      end.
      { ms_simpl. apply list_lookup_insert_eq. eapply lookup_lt_Some, Hh. }
      destruct (wake_up_next_ok _ _ _ Hh1) as (s2 & E & E1 & E2 & _ & E3 & _).
      rewrite E in Hs. injection Hs as <-.
      unfold holders in *. ms_simpl. split; [exact E1|lia].
    + injection Hs as <-. unfold holders in *. ms_simpl.
      split; [reflexivity|lia].
  - (* update_limit *)
    destruct (Z_le_gt_dec n 0) as [Hn|Hn].
    { rewrite Limits.monitored_swallows_nonpositive in Hs by exact Hn.
      injection Hs as <-. split; assumption. }
    destruct (Z.eq_dec n (_max_value s)) as [Heq|Hne].
    + subst n. rewrite Limits.monitored_same_limit_noop in Hs by (auto; lia).
      injection Hs as <-. split; assumption.
    + rewrite MS_resize.update_limit_effective in Hs by (auto; lia).
      injection Hs as <-. unfold holders in *. ms_simpl.
      split; assumption.
Qed.

(** In every execution of [MonitoredSemaphore], resizes included,
    [_active_count] is the number of holders, so [available_permits] is
    the limit minus the number of holders (negative while more callers hold
    a permit than the current limit allows). *)
Theorem monitored_active_count_is_holders (L : Z) (os : list op) (s : state) :
  exec_all os (__init__ L) = Some s ->
  _lock s = false /\
  _active_count s = Z.of_nat (holders s) /\
  fst (available_permits s) = _max_value s - Z.of_nat (holders s).
Proof.
  intros Hr.
  assert (G : forall os s0,
             _lock s0 = false -> _active_count s0 = Z.of_nat (holders s0) ->
             exec_all os s0 = Some s ->
             _lock s = false /\ _active_count s = Z.of_nat (holders s)).
  { clear. induction os as [|o os IH]; intros s0 Hl Ha Hr; simpl in Hr.
    - injection Hr as <-. split; assumption.
    - destruct (exec o s0) as [s1|] eqn:Hs; [|discriminate].
      destruct (active_is_holders_exec o s0 s1 Hl Ha Hs) as [Hl1 Ha1].
      apply (IH s1 Hl1 Ha1 Hr). }
  destruct (G os (__init__ L) eq_refl eq_refl Hr) as [Hl Ha].
  split; [exact Hl|]. split; [exact Ha|].
  cbn [fst available_permits]. lia.
Qed.

Lemma monitored_active_count_is_holders_witness :
  fst (available_permits
         {| heap := [Semaphore 0 []; Semaphore 0 []]; _semaphore := 1;
            _old_semaphores := [0%nat]; _max_value := 1;
            _active_count := 3; _lock := false;
            tasks := [Holding; Holding; Holding] |}) =
  1 - Z.of_nat
        (holders
           {| heap := [Semaphore 0 []; Semaphore 0 []]; _semaphore := 1;
              _old_semaphores := [0%nat]; _max_value := 1;
              _active_count := 3; _lock := false;
              tasks := [Holding; Holding; Holding] |}).
Proof.
  apply (monitored_active_count_is_holders 2
           [Acquire; Acquire; SetLimit 1; Acquire]
           {| heap := [Semaphore 0 []; Semaphore 0 []]; _semaphore := 1;
              _old_semaphores := [0%nat]; _max_value := 1;
              _active_count := 3; _lock := false;
              tasks := [Holding; Holding; Holding] |}
           eq_refl).
Defined.

End MS_active.

(** ** The status properties *)
Module Status.









End Status.
